(** * for-fix-sake: keyword acquisition and scan pipeline

    A shallow embedding of the Obsidian plugin's content-acquisition code
    (cache lookups, repository-identifier check, remote API scan, archive
    download and validation, local directory scan) together with the
    properties the specification states about it.

    Conventions of the embedding:
    - a JavaScript string is a [string]: a sequence of 8-bit code units, so
      the character classes below are the Latin-1 part of the ECMAScript
      ones;
    - a JavaScript object used as a dictionary ([this.cache],
      [this.repoCache]) is a [gmap string _];
    - [async] code is sequential: it is written in a state-and-exception
      monad over the plugin's mutable fields, the file system and the trace
      of requests sent to the outside world;
    - what the outside world answers (GitHub API, HTTPS, the clock, the
      zip and path libraries) is an explicit environment record. *)

From Stdlib Require Import ZArith List String Ascii Bool Lia DecimalString.
From Stdlib.Strings Require Byte.
From stdpp Require Import base option list gmap strings sorting.

Set Warnings "-register-all".

Local Open Scope string_scope.
Local Open Scope Z_scope.

(** ** JavaScript string primitives used by the plugin *)

Module Js.

(** [\s] of regular expressions and the characters removed by
    [String.prototype.trim]: TAB, LF, VT, FF, CR, SPACE and NBSP. *)
Definition isWhiteSpace (c : ascii) : bool :=
  let n := N_of_ascii c in
  ((9 <=? n) && (n <=? 13) || (n =? 32) || (n =? 160))%N.

(** Control characters of the class [[\x00-\x08\x0B\x0C\x0E-\x1F\x7F]]. *)
Definition isControl (c : ascii) : bool :=
  let n := N_of_ascii c in
  ((n <=? 8) || (n =? 11) || (n =? 12) || ((14 <=? n) && (n <=? 31))
   || (n =? 127))%N.

(** [String.prototype.toLowerCase] on Latin-1 text. There it maps code
    unit by code unit: [A-Z] and the letters [U+00C0-U+00DE] (all but the
    multiplication sign [U+00D7]) move up by 32, every other unit stays. The
    context-sensitive and multi-unit mappings of ECMAScript (final sigma,
    dotted capital I) concern characters outside this range, which a
    [string] of this embedding does not hold. *)
Definition toLowerChar (c : ascii) : ascii :=
  let n := N_of_ascii c in
  if ((65 <=? n) && (n <=? 90)
      || (192 <=? n) && (n <=? 222) && negb (n =? 215))%N
  then ascii_of_N (n + 32) else c.

Fixpoint toLowerCase (s : string) : string :=
  match s with
  | EmptyString => EmptyString
  | String c s' => String (toLowerChar c) (toLowerCase s')
  end.

Definition startsWith (s p : string) : bool := String.prefix p s.

Fixpoint endsWith (s p : string) : bool :=
  if String.eqb s p then true
  else match s with
       | EmptyString => false
       | String _ s' => endsWith s' p
       end.

(** [s.includes(sub)] *)
Fixpoint includes (s sub : string) : bool :=
  if String.prefix sub s then true
  else match s with
       | EmptyString => false
       | String _ s' => includes s' sub
       end.

(** [s.substring(n)] for [0 <= n]. *)
Fixpoint substring (n : nat) (s : string) : string :=
  match n, s with
  | O, _ => s
  | S n', String _ s' => substring n' s'
  | S _, EmptyString => EmptyString
  end.

Fixpoint trimStart (s : string) : string :=
  match s with
  | EmptyString => EmptyString
  | String c s' => if isWhiteSpace c then trimStart s' else s
  end.

Fixpoint trimEnd (s : string) : string :=
  match s with
  | EmptyString => EmptyString
  | String c s' =>
      let t := trimEnd s' in
      if isWhiteSpace c && String.eqb t EmptyString then EmptyString
      else String c t
  end.

Definition trim (s : string) : string := trimEnd (trimStart s).

(** Adds a character in front of the first piece of a split. *)
Definition consHead (c : ascii) (pieces : list string) : list string :=
  match pieces with
  | [] => [String c EmptyString]
  | p :: ps => String c p :: ps
  end.

(** [s.split(sep)] for a one-character separator string. *)
Fixpoint split (sep : ascii) (s : string) : list string :=
  match s with
  | EmptyString => [EmptyString]
  | String c s' =>
      if Ascii.eqb c sep then EmptyString :: split sep s'
      else consHead c (split sep s')
  end.

(** [s.split(/\s+/)]: [inGap] tells that the previous character was
    white space, so the current separator run is already open. *)
Fixpoint splitWhiteSpaceFrom (inGap : bool) (s : string) : list string :=
  match s with
  | EmptyString => [EmptyString]
  | String c s' =>
      if isWhiteSpace c then
        if inGap then splitWhiteSpaceFrom true s'
        else EmptyString :: splitWhiteSpaceFrom true s'
      else consHead c (splitWhiteSpaceFrom false s')
  end.

Definition splitWhiteSpace (s : string) : list string :=
  splitWhiteSpaceFrom false s.

(** [l.join(sep)] *)
Definition join (sep : string) (l : list string) : string :=
  String.concat sep l.

(** [s.replace(/\\/g, '/')] *)
Fixpoint backslashesToSlashes (s : string) : string :=
  match s with
  | EmptyString => EmptyString
  | String c s' =>
      String (if Ascii.eqb c "\"%char then "/"%char else c)
             (backslashesToSlashes s')
  end.

(** Template-literal rendering of a non-negative integer. *)
Definition showNat (n : nat) : string :=
  NilZero.string_of_uint (Nat.to_uint n).

(** Truthiness of a possibly [undefined] string. *)
Definition truthy (o : option string) : bool :=
  match o with
  | Some s => negb (String.eqb s EmptyString)
  | None => false
  end.

Definition newline : string := String (ascii_of_nat 10) EmptyString.
Definition nul : string := String (ascii_of_nat 0) EmptyString.
Definition dquote : string := String (ascii_of_nat 34) EmptyString.

(** Length of the longest prefix run of control characters, and the test
    [/[\x00-\x08\x0B\x0C\x0E-\x1F\x7F]{50,}/.test(s)]. *)
Fixpoint controlRun (s : string) : nat :=
  match s with
  | String c s' => if isControl c then S (controlRun s') else O
  | EmptyString => O
  end.

Fixpoint hasControlRun (n : nat) (s : string) : bool :=
  if (n <=? controlRun s)%nat then true
  else match s with
       | EmptyString => false
       | String _ s' => hasControlRun n s'
       end.

End Js.

(** ** Data model *)

(** One reported keyword occurrence (an element of [results]). *)
Record Issue := {
  file : string;
  line : nat;
  content : string;
  url : string
}.

(** [CacheEntry.data] has type [any]: the plugin stores result lists in it
    and compares it with [true] for the rate-limit entry. *)
Inductive Payload :=
| Results (issues : list Issue)
| Flag (b : bool).

Record CacheEntry := {
  timestamp : Z;
  data : Payload
}.

Record RepoCache := {
  latestCommit : string;
  downloadPath : string;
  extractPath : string;
  repoTimestamp : Z
}.

Record ForFixSakeSettings := {
  githubToken : string;
  defaultKeywords : list string;
  cacheEnabled : bool;
  cacheExpiry : Z;
  tempDir : string
}.

(** A JavaScript [Error] with the extra fields the plugin reads or sets. *)
Record JsError := {
  message : string;
  status : option Z;
  isRateLimit : bool
}.

Definition Error (msg : string) : JsError :=
  {| message := msg; status := None; isRateLimit := false |}.

Module GitHubContent.
Inductive type := dir | file | submodule | symlink.
Record t := {
  type_ : type;
  size : Z;
  name : string;
  path : string;
  content : option string
}.
End GitHubContent.

(** What [repos.getContent] resolves to: an array or a single object. *)
Inductive Contents :=
| ContentArray (items : list GitHubContent.t)
| ContentObject (item : GitHubContent.t).

(** A directory item as [fs.readdirSync] and [fs.statSync] show it:
    a regular file with its [stat.size] and its text ([None] when
    [readFileSync] throws), a directory with its items, or anything else. *)
Inductive Entry :=
| FileEntry (name : string) (size : Z) (text : option string)
| DirEntry (name : string) (items : list Entry)
| OtherEntry (name : string).

(** Requests sent to the outside world, in the order they are made. *)
Inductive Event :=
| ReposGet (owner repo : string)
| ReposGetBranch (owner repo branch : string)
| ReposGetContent (owner repo path ref : string)
| HttpsGet (url : string)
| ExtractAllTo (zipPath destPath : string).

Inductive Reply (A : Type) :=
| Resolved (a : A)
| Rejected (e : JsError).
Arguments Resolved {A} a.
Arguments Rejected {A} e.

(** How a call of [https.get] made by [downloadFile] ends:
    - [Response]: the callback receives a response and, for a body that is
      read, the body arrives completely;
    - [RequestError]: the request emits ['error'] once the write stream has
      created the destination file;
    - [EarlyError]: the request emits ['error'] before the write stream has
      created the file, which it does afterwards;
    - [Thrown]: [https.get] itself throws (a URL that is relative or not
      [https:]);
    - [Unfinished]: a [200] response whose body breaks off after
      [received], so that the write stream never finishes. *)
Inductive HttpReply :=
| Response (statusCode : Z) (statusMessage : string)
           (location : option string) (body : list Byte.byte)
| RequestError (e : JsError)
| EarlyError (e : JsError)
| Thrown (e : JsError)
| Unfinished (received : list Byte.byte).

Record Octokit := {
  repos_get : string -> string -> Reply string;
  repos_getBranch : string -> string -> string -> Reply string;
  repos_getContent : string -> string -> string -> string -> Reply Contents
}.

(** The environment of one invocation. [Date_now] is the clock reading as a
    function of the requests completed so far; [newOctokit] is given the
    [auth] option; [https_get] is given the URL and the token sent in the
    [Authorization] header, if any; [extractAllTo] is AdmZip opening the
    archive bytes and extracting into the directory store. *)
Record Env := {
  Date_now : list Event -> Z;
  newOctokit : option string -> Octokit;
  https_get : string -> option string -> HttpReply;
  extractAllTo :
    list Byte.byte -> string -> gmap string (list Entry) ->
    Reply (gmap string (list Entry));
  path_join : string -> string -> string;
  path_relative : string -> string -> string;
  base64_toString : string -> string
}.

(** The plugin instance and what it can observe and change: its fields,
    regular files ([files], path to bytes), directory trees ([dirs], path of
    a directory to the items below it) and the requests made. *)
Record World := {
  settings : ForFixSakeSettings;
  cache : gmap string CacheEntry;
  repoCache : gmap string RepoCache;
  files : gmap string (list Byte.byte);
  dirs : gmap string (list Entry);
  trace : list Event
}.

Definition setCache (c : gmap string CacheEntry) (w : World) : World :=
  {| settings := settings w; cache := c; repoCache := repoCache w;
     files := files w; dirs := dirs w; trace := trace w |}.

Definition setRepoCache (r : gmap string RepoCache) (w : World) : World :=
  {| settings := settings w; cache := cache w; repoCache := r;
     files := files w; dirs := dirs w; trace := trace w |}.

Definition setFiles (f : gmap string (list Byte.byte)) (w : World) : World :=
  {| settings := settings w; cache := cache w; repoCache := repoCache w;
     files := f; dirs := dirs w; trace := trace w |}.

Definition setDirs (d : gmap string (list Entry)) (w : World) : World :=
  {| settings := settings w; cache := cache w; repoCache := repoCache w;
     files := files w; dirs := d; trace := trace w |}.

Definition emit (ev : Event) (w : World) : World :=
  {| settings := settings w; cache := cache w; repoCache := repoCache w;
     files := files w; dirs := dirs w; trace := trace w ++ [ev] |}.

(** ** The monad of asynchronous plugin code *)

(** How a call ends: it returns, it throws (a rejected promise), or it has
    not ended: the model's recursion budget is used up before it ends, or its
    promise never settles. *)
Inductive Completion (A : Type) :=
| Return (a : A)
| Throw (e : JsError)
| OutOfFuel.
Arguments Return {A} a.
Arguments Throw {A} e.
Arguments OutOfFuel {A}.

Definition Async (A : Type) : Type := World -> Completion A * World.

Definition ret {A} (a : A) : Async A := fun w => (Return a, w).

Definition throw {A} (e : JsError) : Async A := fun w => (Throw e, w).

Definition bind {A B} (m : Async A) (k : A -> Async B) : Async B :=
  fun w =>
    match m w with
    | (Return a, w') => k a w'
    | (Throw e, w') => (Throw e, w')
    | (OutOfFuel, w') => (OutOfFuel, w')
    end.

Notation "x <~ m ;; k" := (bind m (fun x => k))
  (at level 100, m at next level, right associativity).
Notation "m ;;; k" := (bind m (fun _ => k))
  (at level 100, right associativity).

(** [try { m } catch (e) { handler e }] *)
Definition tryCatch {A} (m : Async A) (handler : JsError -> Async A) : Async A :=
  fun w =>
    match m w with
    | (Throw e, w') => handler e w'
    | other => other
    end.

Definition getWorld : Async World := fun w => (Return w, w).

Definition modify (f : World -> World) : Async unit := fun w => (Return tt, f w).

(** [await] of a request: the request is recorded, then its promise
    resolves or rejects. *)
Definition await {A} (ev : Event) (r : Reply A) : Async A :=
  fun w =>
    match r with
    | Resolved a => (Return a, emit ev w)
    | Rejected e => (Throw e, emit ev w)
    end.

(** [when c m]: an [if] without [else] around a statement. *)
Definition when (c : bool) (m : Async unit) : Async unit :=
  if c then m else ret tt.

(** ** The plugin with the local search (the variant with [fetchIssuesLocally]) *)

Definition invalidFormat : JsError :=
  Error ("Invalid repository format. Use " +:+ Js.dquote +:+ "owner/repo"
         +:+ Js.dquote).

Definition rateLimitExceeded : JsError :=
  {| message := "GitHub API rate limit exceeded";
     status := Some 403;
     isRateLimit := true |}.

(** [`${repo}-${keywords.join(',')}`] *)
Definition cacheKeyOf (repo : string) (keywords : list string) : string :=
  repo +:+ "-" +:+ Js.join "," keywords.

(** [`ratelimit-${repo}`] *)
Definition rateLimitKeyOf (repo : string) : string := "ratelimit-" +:+ repo.

(** [this.settings.cacheExpiry * 60 * 1000] *)
Definition expiryTime (w : World) : Z := cacheExpiry (settings w) * 60 * 1000.

(** [data === true] *)
Definition isTrue (p : Payload) : bool :=
  match p with
  | Flag b => b
  | Results _ => false
  end.

(** Selects the issues reported for line number [n]. *)
Definition atLine (n : nat) (l : list Issue) : list Issue :=
  List.filter (fun m => Nat.eqb (line m) n) l.

(** *** Keyword scan of the lines of one file *)

Section Scan.
Variables (owner repoName defaultBranch filePath : string).
Variable keywords : list string.

(** [i + 1 < lines.length ? '\n' + lines[i + 1].trim() : ''], where
    [following] is [lines] after index [i]. *)
Definition nextLine (following : list string) : string :=
  match following with
  | next :: _ => Js.newline +:+ Js.trim next
  | [] => ""
  end.

(** The object pushed on [results] for line index [i]. *)
Definition issueAt (i : nat) (ln : string) (following : list string) : Issue :=
  {| file := filePath;
     line := S i;
     content := Js.trim ln +:+ nextLine following;
     url := "https://github.com/" +:+ owner +:+ "/" +:+ repoName +:+ "/blob/"
            +:+ defaultBranch +:+ "/" +:+ filePath +:+ "#L"
            +:+ Js.showNat (S i) |}.

(** [line.includes(`${keyword}:`)] *)
Definition remoteTest (ln keyword : string) : bool :=
  Js.includes ln (keyword +:+ ":").

(** [line.toLowerCase().includes(keyword.toLowerCase())] *)
Definition localTest (ln keyword : string) : bool :=
  Js.includes (Js.toLowerCase ln) (Js.toLowerCase keyword).

(** Inner loop of [fetchIssues]: every keyword is tested. The two loops of
    [fetchIssues] read the same in the API-only variant (src/main.ts). *)
Fixpoint remoteKeywordLoop (found : Issue) (ln : string) (ks : list string)
  : list Issue :=
  match ks with
  | [] => []
  | keyword :: ks' =>
      (if remoteTest ln keyword then [found] else [])
        ++ remoteKeywordLoop found ln ks'
  end.

(** Inner loop of [fetchIssuesLocally]: [break] after the first push. *)
Fixpoint localKeywordLoop (found : Issue) (ln : string) (ks : list string)
  : list Issue :=
  match ks with
  | [] => []
  | keyword :: ks' =>
      if localTest ln keyword then [found]
      else localKeywordLoop found ln ks'
  end.

(** [for (let i = 0; i < lines.length; i++)], started at index [i] with
    the lines from [i] on. *)
Fixpoint remoteLineLoop (i : nat) (lines : list string) : list Issue :=
  match lines with
  | [] => []
  | ln :: following =>
      remoteKeywordLoop (issueAt i ln following) ln keywords
        ++ remoteLineLoop (S i) following
  end.

Fixpoint localLineLoop (i : nat) (lines : list string) : list Issue :=
  match lines with
  | [] => []
  | ln :: following =>
      localKeywordLoop (issueAt i ln following) ln keywords
        ++ localLineLoop (S i) following
  end.

(** [content.split('\n')] followed by the two loops. *)
Definition scanRemoteContent (text : string) : list Issue :=
  remoteLineLoop 0 (Js.split (ascii_of_nat 10) text).

Definition scanLocalContent (text : string) : list Issue :=
  localLineLoop 0 (Js.split (ascii_of_nat 10) text).
End Scan.

(** *** Parsing of the code block *)

Record Block := {
  repo : string;
  keywords : list string;
  forceApi : bool
}.

Definition parseLine (b : Block) (ln : string) : Block :=
  if Js.startsWith ln "repo:" then
    {| repo := Js.trim (Js.substring (String.length "repo:") ln);
       keywords := keywords b; forceApi := forceApi b |}
  else if Js.startsWith ln "keywords:" then
    let keywordString := Js.trim (Js.substring (String.length "keywords:") ln) in
    {| repo := repo b;
       keywords := Js.splitWhiteSpace keywordString;
       forceApi := forceApi b |}
  else if Js.startsWith ln "force-api:" then
    let forceApiString :=
      Js.toLowerCase (Js.trim (Js.substring (String.length "force-api:") ln)) in
    {| repo := repo b; keywords := keywords b;
       forceApi := String.eqb forceApiString "true" |}
  else b.

Definition parseBlock (defaults : list string) (source : string) : Block :=
  fold_left parseLine (Js.split (ascii_of_nat 10) source)
            {| repo := ""; keywords := defaults; forceApi := false |}.

(** The earlier, API-only variant of the plugin (src/main.ts). *)
Module ApiOnly.

Definition parseLine (b : Block) (ln : string) : Block :=
  if Js.startsWith ln "repo:" then
    {| repo := Js.trim (Js.substring (String.length "repo:") ln);
       keywords := keywords b; forceApi := forceApi b |}
  else if Js.startsWith ln "keywords:" then
    let keywordString :=
      Js.trim (Js.substring (String.length "keywords:") ln) in
    let withoutComments :=
      Js.trim (default "" (Js.split "#" keywordString !! 0%nat)) in
    {| repo := repo b;
       keywords := Js.splitWhiteSpace withoutComments;
       forceApi := forceApi b |}
  else b.

Definition parseBlock (defaults : list string) (source : string) : Block :=
  fold_left parseLine (Js.split (ascii_of_nat 10) source)
            {| repo := ""; keywords := defaults; forceApi := false |}.

End ApiOnly.

(** *** Archive download, validation and extraction *)

(** ZIP local-file-header signature [PK\x03\x04]. *)
Definition zipSignature : list Byte.byte := [Byte.x50; Byte.x4b; Byte.x03; Byte.x04].

(** [Buffer.alloc(4)] after [fs.readSync(fd, header, 0, 4, 0)]: the first
    four bytes of the file, zero where the file is shorter. *)
Definition readHeader (bytes : list Byte.byte) : list Byte.byte :=
  firstn 4 (bytes ++ repeat Byte.x00 4).

(** [header[0] !== 0x50 || header[1] !== 0x4B || header[2] !== 0x03 ||
    header[3] !== 0x04] *)
Definition missingSignature (header : list Byte.byte) : bool :=
  negb (Byte.eqb (nth 0 header Byte.x00) Byte.x50)
  || negb (Byte.eqb (nth 1 header Byte.x00) Byte.x4b)
  || negb (Byte.eqb (nth 2 header Byte.x00) Byte.x03)
  || negb (Byte.eqb (nth 3 header Byte.x00) Byte.x04).

Definition showZ (z : Z) : string := NilZero.string_of_int (Z.to_int z).

(** [fs.unlinkSync(destination)], errors ignored. *)
Definition unlink (destination : string) : Async unit :=
  modify (fun w => setFiles (delete destination (files w)) w).

(** The ['finish'] handler of the write stream. *)
Definition validateDownload (destination : string) : Async unit :=
  tryCatch
    (w <~ getWorld ;;
     match files w !! destination with
     | None =>
         throw (Error ("ENOENT: no such file or directory, open '"
                       +:+ destination +:+ "'"))
     | Some bytes =>
         if missingSignature (readHeader bytes)
         then throw (Error "Not a valid ZIP file (missing PK signature)")
         else ret tt
     end)
    (fun error =>
       unlink destination ;;;
       throw (Error ("Invalid ZIP file: " +:+ message error))).

Section Plugin.
Variable env : Env.

Definition dateNow : Async Z :=
  fun w => (Return (Date_now env (trace w)), w).

(** [this.settings.githubToken ? token : undefined], the credential given
    to Octokit and sent in the [Authorization] header. *)
Definition credential (w : World) : option string :=
  if Js.truthy (Some (githubToken (settings w)))
  then Some (githubToken (settings w)) else None.

(** [fuel] bounds the number of redirect hops followed. The content-type
    check only logs a warning and is left out. The write stream opened by
    [fs.createWriteStream(destination)] creates (or empties) the file; it
    has done so when a response or a [RequestError] arrives. *)
Fixpoint downloadFile (fuel : nat) (url destination : string) : Async unit :=
  fun w =>
    (* fs.createWriteStream(destination); https.get(url, options, ...) *)
    let w1 := emit (HttpsGet url)
                   (setFiles (<[destination := []]> (files w)) w) in
    match https_get env url (credential w) with
    | Thrown err =>
        (* the promise executor throws: rejection, no handler has run *)
        throw err w1
    | EarlyError err =>
        (* the handler's unlink comes first, the stream's file second *)
        (unlink destination ;;;
         modify (fun w' => setFiles (<[destination := []]> (files w')) w') ;;;
         throw err) w1
    | RequestError err => (unlink destination ;;; throw err) w1
    | Unfinished received =>
        (* response.pipe(file) without an end: no 'finish', no settlement *)
        (OutOfFuel, setFiles (<[destination := received]> (files w1)) w1)
    | Response statusCode statusMessage location body =>
        if ((statusCode =? 302) || (statusCode =? 301)) && Js.truthy location
        then
          match fuel with
          | O => (OutOfFuel, w1)
          | S fuel' => downloadFile fuel' (default "" location) destination w1
          end
        else if negb (statusCode =? 200) then
          (unlink destination ;;;
           throw (Error ("Failed to download file: " +:+ showZ statusCode
                         +:+ " " +:+ statusMessage))) w1
        else
          (* response.pipe(file), then the 'finish' handler *)
          validateDownload destination
            (setFiles (<[destination := body]> (files w1)) w1)
    end.

(** [extractZip] is synchronous; its [catch] blocks rethrow. *)
Definition extractZip (zipPath destPath : string) : Async unit :=
  w <~ getWorld ;;
  match files w !! zipPath with
  | None => throw (Error ("ZIP file not found: " +:+ zipPath))
  | Some bytes =>
      if Z.of_nat (length bytes) <? 100 then
        throw (Error ("ZIP file is too small ("
                      +:+ showZ (Z.of_nat (length bytes)) +:+ " bytes)"))
      else
        tryCatch
          (extracted <~ await (ExtractAllTo zipPath destPath)
                              (extractAllTo env bytes destPath (dirs w)) ;;
           modify (setDirs extracted))
          (fun error =>
             if Js.includes (message error) "Invalid LOC header" then
               throw (Error "ZIP file is corrupted or invalid (Invalid LOC header)")
             else if Js.includes (message error) "Invalid central directory" then
               throw (Error "ZIP file is corrupted (Invalid central directory)")
             else throw error)
  end.

(** *** Local directory walk and scan *)

(** A path returned by [walkDir], with what [statSync] and [readFileSync]
    later give for it. *)
Record FoundFile := {
  foundPath : string;
  foundSize : Z;
  foundText : option string
}.

Definition excludedDirs : list string :=
  ["node_modules"; ".git"; "build"; "dist"; "target"].

Definition inList (x : string) (l : list string) : bool :=
  existsb (String.eqb x) l.

(** One turn of the loop of [walkDir(dir)] over [fs.readdirSync(dir)]:
    the paths that [item] adds to [files]. *)
Fixpoint walkItem (dir : string) (item : Entry) : list FoundFile :=
  match item with
  | DirEntry name sub =>
      if negb (Js.startsWith name ".")
         && negb (String.eqb name "node_modules")
      then
        if inList name excludedDirs then []
        else flat_map (walkItem (path_join env dir name)) sub
      else []
  | FileEntry name size text =>
      [{| foundPath := path_join env dir name;
          foundSize := size;
          foundText := text |}]
  | OtherEntry _ => []
  end.

(** [walkDir(dir)] where [items] is what the directory holds. *)
Definition walkDir (dir : string) (items : list Entry) : list FoundFile :=
  flat_map (walkItem dir) items.

(** Body of [for (const file of files)] in [fetchIssuesLocally]. *)
Definition scanLocalFile (owner repoName defaultBranch searchDir : string)
           (keywords : list string) (f : FoundFile) : list Issue :=
  if 500000 <? foundSize f then []
  else
    match foundText f with
    | None => []
    | Some text =>
        if Js.includes text Js.nul || Js.hasControlRun 50 text then []
        else
          let relativePath :=
            Js.backslashesToSlashes
              (path_relative env searchDir (foundPath f)) in
          scanLocalContent owner repoName defaultBranch relativePath
                           keywords text
    end.

(** *** Result cache *)

(** The block "Check cache first if enabled" shared by [fetchIssues] and
    [fetchIssuesLocally]: an unexpired entry is returned at once,
    otherwise the rest of the function runs. *)
Definition cachedOr (cacheKey : string) (rest : Async Payload) : Async Payload :=
  w <~ getWorld ;;
  match (if cacheEnabled (settings w) then cache w !! cacheKey else None) with
  | Some cacheEntry =>
      now <~ dateNow ;;
      if now - timestamp cacheEntry <? expiryTime w
      then ret (data cacheEntry)
      else rest
  | None => rest
  end.

(** "Cache the results if caching is enabled", then [return results]. *)
Definition storeAndReturn (cacheKey : string) (results : list Issue)
  : Async Payload :=
  w <~ getWorld ;;
  when (cacheEnabled (settings w))
       (now <~ dateNow ;;
        modify (fun w' =>
                  setCache (<[cacheKey := {| timestamp := now;
                                             data := Results results |}]>
                              (cache w')) w')) ;;;
  ret (Results results).

(** *** [fetchIssuesLocally] *)

(** The [else] branch of the up-to-date test: download, extract, record. *)
Definition refreshSnapshot (fuel : nat)
           (repo owner repoName defaultBranch latestCommit repoDir : string)
  : Async unit :=
  let downloadUrl :=
    "https://github.com/" +:+ owner +:+ "/" +:+ repoName +:+ "/archive/"
    +:+ defaultBranch +:+ ".zip" in
  let downloadPath :=
    path_join env repoDir (repoName +:+ "-" +:+ defaultBranch +:+ ".zip") in
  let extractPath :=
    path_join env repoDir (repoName +:+ "-" +:+ defaultBranch) in
  downloadFile fuel downloadUrl downloadPath ;;;
  extractZip downloadPath repoDir ;;;
  now <~ dateNow ;;
  modify (fun w =>
            setRepoCache
              (<[repo := {| latestCommit := latestCommit;
                            downloadPath := downloadPath;
                            extractPath := extractPath;
                            repoTimestamp := now |}]> (repoCache w)) w).

(** [this.repoCache[repo] && this.repoCache[repo].latestCommit === latestCommit] *)
Definition upToDate (w : World) (repo commit : string) : bool :=
  match repoCache w !! repo with
  | Some known => String.eqb (latestCommit known) commit
  | None => false
  end.

(** [walkDir(searchDir)]: [readdirSync] throws when the directory is
    missing. *)
Definition readTree (searchDir : string) : Async (list FoundFile) :=
  w <~ getWorld ;;
  match dirs w !! searchDir with
  | Some items => ret (walkDir searchDir items)
  | None =>
      throw (Error ("ENOENT: no such file or directory, scandir '"
                    +:+ searchDir +:+ "'"))
  end.

(** The function from "Get latest commit SHA" on, once the default
    branch is known. *)
Definition scanSnapshot (fuel : nat) (octokit : Octokit)
           (repo owner repoName : string) (keywords : list string)
           (cacheKey repoDir defaultBranch : string) : Async Payload :=
  latestCommit <~ await (ReposGetBranch owner repoName defaultBranch)
                        (repos_getBranch octokit owner repoName defaultBranch) ;;
  w1 <~ getWorld ;;
  (if upToDate w1 repo latestCommit then ret tt
   else refreshSnapshot fuel repo owner repoName defaultBranch latestCommit
                        repoDir) ;;;
  let searchDir :=
    path_join env repoDir (repoName +:+ "-" +:+ defaultBranch) in
  found <~ readTree searchDir ;;
  let results :=
    flat_map (scanLocalFile owner repoName defaultBranch searchDir keywords)
             found in
  storeAndReturn cacheKey results.

(** The function after the cache check, with [owner] and [repoName]. *)
Definition scanLocally (fuel : nat) (repo owner repoName : string)
           (keywords : list string) (cacheKey : string) : Async Payload :=
  w <~ getWorld ;;
  let octokit := newOctokit env (credential w) in
  let repoDir :=
    path_join env (tempDir (settings w)) (owner +:+ "-" +:+ repoName) in
  when (negb (bool_decide (is_Some (dirs w !! repoDir))))
       (modify (fun w' => setDirs (<[repoDir := []]> (dirs w')) w')) ;;;
  defaultBranch <~ await (ReposGet owner repoName)
                         (repos_get octokit owner repoName) ;;
  scanSnapshot fuel octokit repo owner repoName keywords cacheKey repoDir
               defaultBranch.

Definition fetchIssuesLocally (fuel : nat) (repo : string)
           (keywords : list string) : Async Payload :=
  let parts := Js.split "/" repo in
  let owner := parts !! 0%nat in
  let repoName := parts !! 1%nat in
  if negb (Js.truthy owner) || negb (Js.truthy repoName)
  then throw invalidFormat
  else
    let cacheKey := cacheKeyOf repo keywords in
    cachedOr cacheKey
             (scanLocally fuel repo (default "" owner) (default "" repoName)
                          keywords cacheKey).

(** *** [fetchIssues] *)

Definition allowedExtensions : list string :=
  ["js"; "jsx"; "ts"; "tsx"; "py"; "java"; "rb"; "php"; "c"; "cpp"; "h";
   "hpp"; "cs"; "go"; "rs"; "swift"; "kt"; "sh"; "md"; "txt"; "ml"; "mli"].

(** [file.name.match(/\.(js|jsx|...|mli)$/i)] *)
Definition hasAllowedExtension (fileName : string) : bool :=
  existsb (fun ext => Js.endsWith (Js.toLowerCase fileName) ("." +:+ ext))
          allowedExtensions.

(** The loop of [getFilesRecursively] over [contentArray]; [recurse] is
    the function itself. *)
Fixpoint collectFiles (recurse : string -> Async (list GitHubContent.t))
         (contentArray : list GitHubContent.t)
  : Async (list GitHubContent.t) :=
  match contentArray with
  | [] => ret []
  | item :: rest =>
      here <~ (match GitHubContent.type_ item with
               | GitHubContent.dir => recurse (GitHubContent.path item)
               | GitHubContent.file => ret [item]
               | _ => ret []
               end) ;;
      more <~ collectFiles recurse rest ;;
      ret (here ++ more)%list
  end.

(** [fuel] bounds the depth of the remote directory tree. *)
Fixpoint getFilesRecursively (fuel : nat) (octokit : Octokit)
         (owner repoName defaultBranch path : string)
  : Async (list GitHubContent.t) :=
  match fuel with
  | O => fun w => (OutOfFuel, w)
  | S fuel' =>
      contents <~ await (ReposGetContent owner repoName path defaultBranch)
                        (repos_getContent octokit owner repoName path
                                          defaultBranch) ;;
      let contentArray :=
        match contents with
        | ContentArray items => items
        | ContentObject item => [item]
        end in
      collectFiles
        (getFilesRecursively fuel' octokit owner repoName defaultBranch)
        contentArray
  end.

(** Body of [for (const file of files)] in [fetchIssues]. *)
Definition scanRemoteFile (octokit : Octokit)
           (owner repoName defaultBranch : string) (keywords : list string)
           (f : GitHubContent.t) : Async (list Issue) :=
  if (500000 <? GitHubContent.size f)
     || negb (hasAllowedExtension (GitHubContent.name f))
  then ret []
  else
    contentData <~ await (ReposGetContent owner repoName
                                          (GitHubContent.path f) defaultBranch)
                         (repos_getContent octokit owner repoName
                                           (GitHubContent.path f)
                                           defaultBranch) ;;
    match contentData with
    | ContentArray _ => ret []
    | ContentObject fileData =>
        if negb (Js.truthy (GitHubContent.content fileData)) then ret []
        else
          let text :=
            base64_toString env
              (default "" (GitHubContent.content fileData)) in
          ret (scanRemoteContent owner repoName defaultBranch
                                 (GitHubContent.path f) keywords text)
    end.

Fixpoint scanRemoteFiles (octokit : Octokit)
         (owner repoName defaultBranch : string) (keywords : list string)
         (fs : list GitHubContent.t) : Async (list Issue) :=
  match fs with
  | [] => ret []
  | f :: rest =>
      here <~ scanRemoteFile octokit owner repoName defaultBranch keywords f ;;
      more <~ scanRemoteFiles octokit owner repoName defaultBranch keywords
                              rest ;;
      ret (here ++ more)%list
  end.

(** The function from "Search for files in the repository" on, once the
    default branch is known. *)
Definition scanBranch (fuel : nat) (octokit : Octokit)
           (owner repoName : string) (keywords : list string)
           (cacheKey defaultBranch : string) : Async Payload :=
  found <~ getFilesRecursively fuel octokit owner repoName defaultBranch "" ;;
  results <~ scanRemoteFiles octokit owner repoName defaultBranch keywords
                             found ;;
  storeAndReturn cacheKey results.

(** The function from "Create Octokit instance" on. *)
Definition scanRemotely (fuel : nat) (repo : string)
           (keywords : list string) (cacheKey : string) : Async Payload :=
  w <~ getWorld ;;
  let octokit := newOctokit env (credential w) in
  let parts := Js.split "/" repo in
  let owner := parts !! 0%nat in
  let repoName := parts !! 1%nat in
  if negb (Js.truthy owner) || negb (Js.truthy repoName)
  then throw invalidFormat
  else
    let owner := default "" owner in
    let repoName := default "" repoName in
    defaultBranch <~ await (ReposGet owner repoName)
                           (repos_get octokit owner repoName) ;;
    scanBranch fuel octokit owner repoName keywords cacheKey defaultBranch.

Definition fetchIssues (fuel : nat) (repo : string) (keywords : list string)
  : Async Payload :=
  let rest :=
    let cacheKey := cacheKeyOf repo keywords in
    cachedOr cacheKey (scanRemotely fuel repo keywords cacheKey) in
  w <~ getWorld ;;
  let rateLimitKey := rateLimitKeyOf repo in
  match (if cacheEnabled (settings w) then cache w !! rateLimitKey else None) with
  | Some entry =>
      if isTrue (data entry) then
        now <~ dateNow ;;
        if now - timestamp entry <? expiryTime w then
          tryCatch (fetchIssuesLocally fuel repo keywords)
                   (fun localError => throw rateLimitExceeded)
        else rest
      else rest
  | None => rest
  end.

(** *** Choice of the strategy in the code-block processor *)

Definition acquire (fuel : nat) (b : Block) : Async Payload :=
  if negb (forceApi b) then
    tryCatch (fetchIssuesLocally fuel (repo b) (keywords b))
             (fun localError => fetchIssues fuel (repo b) (keywords b))
  else fetchIssues fuel (repo b) (keywords b).

(** The processor up to rendering: [None] stands for the message
    "No repository specified". *)
Definition processBlock (fuel : nat) (source : string)
  : Async (option Payload) :=
  w <~ getWorld ;;
  let b := parseBlock (defaultKeywords (settings w)) source in
  if String.eqb (repo b) "" then ret None
  else
    issues <~ acquire fuel b ;;
    ret (Some issues).
End Plugin.

(** ** Notions used to state the properties *)

(** The identifier check of the code, [!owner || !repoName] after
    [repo.split('/')]: the first or the second segment is missing or empty. *)
Definition rejectedByCheck (repo : string) : bool :=
  let parts := Js.split "/" repo in
  negb (Js.truthy (parts !! 0%nat)) || negb (Js.truthy (parts !! 1%nat)).

(** The format in the words of the specification: exactly one [/], between
    two non-empty segments. *)
Definition exactlyOwnerSlashName (repo : string) : bool :=
  match Js.split "/" repo with
  | [owner; name] =>
      negb (String.eqb owner "") && negb (String.eqb name "")
  | _ => false
  end.

(** The entry under [key] that a lookup made now would use: caching is on,
    the entry exists and [now - timestamp < expiryTime]. *)
Definition liveEntry (env : Env) (w : World) (key : string) : option CacheEntry :=
  if cacheEnabled (settings w) then
    match cache w !! key with
    | Some entry =>
        if Date_now env (trace w) - timestamp entry <? expiryTime w
        then Some entry else None
    | None => None
    end
  else None.

(** The first test of [fetchIssues] succeeds: a live rate-limit entry whose
    data is [true]. *)
Definition knownRateLimited (env : Env) (w : World) (repo : string) : bool :=
  match liveEntry env w (rateLimitKeyOf repo) with
  | Some entry => isTrue (data entry)
  | None => false
  end.

Definition isReposGet (ev : Event) : bool :=
  match ev with
  | ReposGet _ _ => true
  | _ => false
  end.

Definition isDownloadOrExtraction (ev : Event) : bool :=
  match ev with
  | HttpsGet _ | ExtractAllTo _ _ => true
  | _ => false
  end.

(** [w'] is [w] after some more requests, all of kind [allowed]. *)
Definition requestsOnly (allowed : Event -> bool) (w w' : World) : Prop :=
  exists more, trace w' = (trace w ++ more)%list /\ forallb allowed more = true.

(** [w'] is [w] after exactly one repository request, for [owner/repoName],
    followed by requests of other kinds: one run of an acquisition. *)
Definition oneFetch (owner repoName : string) (w w' : World) : Prop :=
  exists more,
    trace w' = (trace w ++ ReposGet owner repoName :: more)%list
    /\ forallb (fun ev => negb (isReposGet ev)) more = true.

(** [w'] has the result cache of [w], except for entries holding result
    lists that were stored under [key]. *)
Definition storesOnlyResults (key : string) (w w' : World) : Prop :=
  forall k, cache w' !! k = cache w !! k
            \/ k = key /\ exists t issues,
                 cache w' !! k = Some {| timestamp := t; data := Results issues |}.

(** The character [c] occurs nowhere in [s]. *)
Fixpoint lacks (c : ascii) (s : string) : Prop :=
  match s with
  | EmptyString => True
  | String a s' => a <> c /\ lacks c s'
  end.

(** [w'] has the settings of [w]. *)
Definition sameSettings (w w' : World) : Prop := settings w' = settings w.

(** Every world a computation ends in is related to the one it starts in. *)
Definition steps {A} (R : World -> World -> Prop) (m : Async A) : Prop :=
  forall w, R w (snd (m w)).

(** A relation between worlds that holds across the updates of the file
    system and of the snapshot records. *)
Record Frame (R : World -> World -> Prop) : Prop := {
  frame_refl : forall w, R w w;
  frame_trans : forall w1 w2 w3, R w1 w2 -> R w2 w3 -> R w1 w3;
  frame_files : forall w f, R w (setFiles f w);
  frame_dirs : forall w d, R w (setDirs d w);
  frame_repoCache : forall w r, R w (setRepoCache r w)
}.

(** ** A concrete plugin and outside world, used by the examples *)

Module Demo.

(** [path.join] and [path.relative] on POSIX, for a relative second
    argument and for a path below the directory. *)
Definition posixJoin (a b : string) : string := a +:+ "/" +:+ b.

Definition posixRelative (from to : string) : string :=
  Js.substring (S (String.length from)) to.

Definition text : string :=
  "x = 1" +:+ Js.newline +:+ "# TODO: fix parser" +:+ Js.newline
  +:+ "return None".

Definition aPy : GitHubContent.t :=
  {| GitHubContent.type_ := GitHubContent.file;
     GitHubContent.size := 36;
     GitHubContent.name := "a.py";
     GitHubContent.path := "src/a.py";
     GitHubContent.content := Some text |}.

Definition src : GitHubContent.t :=
  {| GitHubContent.type_ := GitHubContent.dir;
     GitHubContent.size := 0;
     GitHubContent.name := "src";
     GitHubContent.path := "src";
     GitHubContent.content := None |}.

Definition notFound : JsError :=
  {| message := "Not Found"; status := Some 404; isRateLimit := false |}.

Definition rateLimited : JsError :=
  {| message := "API rate limit exceeded";
     status := Some 403; isRateLimit := false |}.

(** The repository [octo/demo], default branch [main], head [c0ffee]. *)
Definition octokit : Octokit :=
  {| repos_get := fun owner repoName =>
       if String.eqb owner "octo" && String.eqb repoName "demo"
       then Resolved "main" else Rejected notFound;
     repos_getBranch := fun _ _ _ => Resolved "c0ffee";
     repos_getContent := fun _ _ path _ =>
       if String.eqb path "" then Resolved (ContentArray [src])
       else if String.eqb path "src" then Resolved (ContentArray [aPy])
       else if String.eqb path "src/a.py" then Resolved (ContentObject aPy)
       else Rejected notFound |}.

(** An API whose quota is used up. *)
Definition exhaustedOctokit : Octokit :=
  {| repos_get := fun _ _ => Rejected rateLimited;
     repos_getBranch := fun _ _ _ => Rejected rateLimited;
     repos_getContent := fun _ _ _ _ => Rejected rateLimited |}.

Definition archive : list Byte.byte := (zipSignature ++ repeat Byte.x00 120)%list.

Definition tree : list Entry :=
  [DirEntry ".git" [FileEntry "HEAD" 20 (Some "ref: TODO")];
   DirEntry "src" [FileEntry "a.py" 33 (Some ("x = 1" +:+ Js.newline
                                               +:+ "todo fix parser"))]].

(** The content of the API is already decoded in this world. *)
Definition env : Env :=
  {| Date_now := fun requests => 1000000 + Z.of_nat (length requests);
     newOctokit := fun _ => octokit;
     https_get := fun _ _ => Response 200 "OK" None archive;
     extractAllTo := fun _ destPath store =>
       Resolved (<[posixJoin destPath "demo-main" := tree]> store);
     path_join := posixJoin;
     path_relative := posixRelative;
     base64_toString := fun s => s |}.

Definition exhaustedEnv : Env :=
  {| Date_now := Date_now env;
     newOctokit := fun _ => exhaustedOctokit;
     https_get := fun _ _ => RequestError rateLimited;
     extractAllTo := extractAllTo env;
     path_join := posixJoin;
     path_relative := posixRelative;
     base64_toString := fun s => s |}.

(** [DEFAULT_SETTINGS] with [os.tmpdir()] being [/tmp]. *)
Definition DEFAULT_SETTINGS : ForFixSakeSettings :=
  {| githubToken := "";
     defaultKeywords := ["TODO"; "FIXME"];
     cacheEnabled := true;
     cacheExpiry := 60;
     tempDir := "/tmp" |}.

(** The plugin right after [onload]. *)
Definition fresh : World :=
  {| settings := DEFAULT_SETTINGS;
     cache := ∅; repoCache := ∅; files := ∅; dirs := ∅; trace := [] |}.

(** The same plugin with caching switched off in the settings. *)
Definition uncached : World :=
  {| settings := {| githubToken := ""; defaultKeywords := ["TODO"; "FIXME"];
                    cacheEnabled := false; cacheExpiry := 60;
                    tempDir := "/tmp" |};
     cache := ∅; repoCache := ∅; files := ∅; dirs := ∅; trace := [] |}.

(** The world after a first local acquisition of [octo/demo]. *)
Definition afterFirst : World :=
  snd (fetchIssuesLocally env 3 "octo/demo" ["TODO"] uncached).

(** A plugin whose cache holds a result for [octo/demo] and [TODO] that
    is exactly [cacheExpiry] minutes old when the clock shows 1000000. *)
Definition staleEntry : CacheEntry :=
  {| timestamp := 1000000 - 60 * 60000; data := Results [] |}.

Definition stale : World :=
  {| settings := DEFAULT_SETTINGS;
     cache := {[ "octo/demo-TODO" := staleEntry ]};
     repoCache := ∅; files := ∅; dirs := ∅; trace := [] |}.

(** The world after a first remote acquisition with [TODO FIXME], and
    what that acquisition returned. *)
Definition afterRemote : World :=
  snd (fetchIssues env 3 "octo/demo" ["TODO"; "FIXME"] fresh).

Definition found : Payload :=
  Results
    [{| file := "src/a.py"; line := 2;
        content := "# TODO: fix parser" +:+ Js.newline +:+ "return None";
        url := "https://github.com/octo/demo/blob/main/src/a.py#L2" |}].

Definition localFile : FoundFile :=
  {| foundPath := "/tmp/octo-demo/demo-main/src/a.py";
     foundSize := 33;
     foundText := Some ("x = 1" +:+ Js.newline +:+ "todo fix parser") |}.

End Demo.

(** ** More of the plugin *)

(** *** [fetchIssues] of the API-only variant (src/main.ts) *)

Module ApiOnlyFetch.

Definition allowedExtensions : list string :=
  ["js"; "jsx"; "ts"; "tsx"; "py"; "java"; "rb"; "php"; "c"; "cpp"; "h";
   "hpp"; "cs"; "go"; "rs"; "swift"; "kt"; "sh"; "md"; "txt"].

(** [file.name.match(/\.(js|jsx|...|txt)$/i)] *)
Definition hasAllowedExtension (fileName : string) : bool :=
  existsb (fun ext => Js.endsWith (Js.toLowerCase fileName) ("." +:+ ext))
          allowedExtensions.

(** Body of [for (const file of files)]. *)
Definition scanRemoteFile (env : Env) (octokit : Octokit)
           (owner repoName defaultBranch : string) (keywords : list string)
           (f : GitHubContent.t) : Async (list Issue) :=
  if (500000 <? GitHubContent.size f)
     || negb (hasAllowedExtension (GitHubContent.name f))
  then ret []
  else
    contentData <~ await (ReposGetContent owner repoName
                                          (GitHubContent.path f) defaultBranch)
                         (repos_getContent octokit owner repoName
                                           (GitHubContent.path f)
                                           defaultBranch) ;;
    match contentData with
    | ContentArray _ => ret []
    | ContentObject fileData =>
        if negb (Js.truthy (GitHubContent.content fileData)) then ret []
        else
          let text :=
            base64_toString env
              (default "" (GitHubContent.content fileData)) in
          ret (scanRemoteContent owner repoName defaultBranch
                                 (GitHubContent.path f) keywords text)
    end.

Fixpoint scanRemoteFiles (env : Env) (octokit : Octokit)
         (owner repoName defaultBranch : string) (keywords : list string)
         (fs : list GitHubContent.t) : Async (list Issue) :=
  match fs with
  | [] => ret []
  | f :: rest =>
      here <~ scanRemoteFile env octokit owner repoName defaultBranch keywords
                             f ;;
      more <~ scanRemoteFiles env octokit owner repoName defaultBranch keywords
                              rest ;;
      ret (here ++ more)%list
  end.

(** No cache: the function goes straight to the API. *)
Definition fetchIssues (env : Env) (fuel : nat) (repo : string)
           (keywords : list string) : Async (list Issue) :=
  w <~ getWorld ;;
  let octokit := newOctokit env (credential w) in
  let parts := Js.split "/" repo in
  let owner := parts !! 0%nat in
  let repoName := parts !! 1%nat in
  if negb (Js.truthy owner) || negb (Js.truthy repoName)
  then throw invalidFormat
  else
    let owner := default "" owner in
    let repoName := default "" repoName in
    defaultBranch <~ await (ReposGet owner repoName)
                           (repos_get octokit owner repoName) ;;
    found <~ getFilesRecursively fuel octokit owner repoName defaultBranch "" ;;
    scanRemoteFiles env octokit owner repoName defaultBranch keywords found.

End ApiOnlyFetch.

(** The two variants treat the name of [f] alike (it does not end in [.ml]
    or [.mli], the extensions the later variant added). *)
Definition sameTreatment (f : GitHubContent.t) : Prop :=
  hasAllowedExtension (GitHubContent.name f)
  = ApiOnlyFetch.hasAllowedExtension (GitHubContent.name f).

(** Every entry the API lists below the repository satisfies [P]. *)
Definition listsOnly (P : GitHubContent.t -> Prop) (octokit : Octokit)
           (owner repoName defaultBranch : string) : Prop :=
  forall path,
    match repos_getContent octokit owner repoName path defaultBranch with
    | Resolved (ContentArray items) => List.Forall P items
    | Resolved (ContentObject item) => P item
    | Rejected _ => True
    end.

(** The completion of the later variant that corresponds to one of the
    API-only variant. *)
Definition asPayload (c : Completion (list Issue)) : Completion Payload :=
  match c with
  | Return issues => Return (Results issues)
  | Throw e => Throw e
  | OutOfFuel => OutOfFuel
  end.

(** *** The settings tab: the "Default Keywords" field *)

(** [.setValue(this.plugin.settings.defaultKeywords.join(','))] *)
Definition defaultKeywordsText (s : ForFixSakeSettings) : string :=
  Js.join "," (defaultKeywords s).

(** [onChange]: [defaultKeywords = value.split(',').map(k => k.trim())] *)
Definition setDefaultKeywords (value : string) (s : ForFixSakeSettings)
  : ForFixSakeSettings :=
  {| githubToken := githubToken s;
     defaultKeywords := map Js.trim (Js.split "," value);
     cacheEnabled := cacheEnabled s;
     cacheExpiry := cacheExpiry s;
     tempDir := tempDir s |}.

(** *** The code-block processor with its error display *)

(** What the processor puts into the element, without the styling. *)
Inductive Display :=
| NoRepositorySpecified
| IssuesList (issues : Payload)
| RepositoryNotFound
| RateLimitReached
| ErrorText (text : string).

(** [error.status === code] *)
Definition statusIs (error : JsError) (code : Z) : bool :=
  match status error with
  | Some s => s =? code
  | None => false
  end.

(** The [catch] block of the processor. *)
Definition displayError (w : World) (error : JsError) : Display :=
  if statusIs error 404 && negb (Js.truthy (Some (githubToken (settings w))))
  then RepositoryNotFound
  else if statusIs error 403 && Js.includes (message error) "rate limit"
          || Js.includes (message error) "quota exhausted"
  then RateLimitReached
  else ErrorText ("Failed to fetch issues: " +:+ message error).

(** The processor registered by [onload]. *)
Definition codeBlockProcessor (env : Env) (fuel : nat) (source : string)
  : Async Display :=
  w <~ getWorld ;;
  let b := parseBlock (defaultKeywords (settings w)) source in
  if String.eqb (repo b) "" then ret NoRepositorySpecified
  else
    tryCatch (issues <~ acquire env fuel b ;; ret (IssuesList issues))
             (fun error => w' <~ getWorld ;; ret (displayError w' error)).

(** Induction over directory trees. *)
Fixpoint Entry_tree_ind (P : Entry -> Prop)
         (file : forall name size text, P (FileEntry name size text))
         (directory : forall name items,
             List.Forall P items -> P (DirEntry name items))
         (other : forall name, P (OtherEntry name))
         (e : Entry) : P e :=
  match e with
  | FileEntry name size text => file name size text
  | DirEntry name items =>
      directory name items
        ((fix all (l : list Entry) : List.Forall P l :=
            match l with
            | [] => @List.Forall_nil Entry P
            | x :: l' =>
                @List.Forall_cons Entry P x l'
                                  (Entry_tree_ind P file directory other x)
                                  (all l')
            end) items)
  | OtherEntry name => other name
  end.

(** [walkDir] enters a directory of this name. *)
Definition entered (name : string) : bool :=
  negb (Js.startsWith name ".") && negb (inList name excludedDirs).

(** The directory whose items are [items] holds, below the chain of
    directories [names], a regular file [fileName] with this size and
    text. *)
Fixpoint holdsFile (items : list Entry) (names : list string)
         (fileName : string) (size : Z) (text : option string) : Prop :=
  match names with
  | [] => In (FileEntry fileName size text) items
  | name :: rest =>
      exists sub,
        In (DirEntry name sub) items /\ holdsFile sub rest fileName size text
  end.

(** ** Further notions and fixtures *)

(** [url] answers with redirects (301 or 302 with a non-empty [Location])
    through [hops], whose last address answers 200 with [body]. *)
Fixpoint redirectsTo (env : Env) (token : option string) (url : string)
         (hops : list string) (body : list Byte.byte) : Prop :=
  match hops with
  | [] =>
      exists statusMessage location,
        https_get env url token = Response 200 statusMessage location body
  | next :: rest =>
      (exists statusCode statusMessage sent,
          (statusCode = 301 \/ statusCode = 302)
          /\ next <> ""
          /\ https_get env url token
             = Response statusCode statusMessage (Some next) sent)
      /\ redirectsTo env token next rest body
  end.

(** The record is for [filePath] and its link is the blob address of that
    file followed by [#L] and the record's own line number. *)
Definition wellLinked (owner repoName defaultBranch filePath : string)
           (m : Issue) : Prop :=
  file m = filePath
  /\ url m = "https://github.com/" +:+ owner +:+ "/" +:+ repoName +:+ "/blob/"
             +:+ defaultBranch +:+ "/" +:+ file m +:+ "#L"
             +:+ Js.showNat (line m).

(** Kinds of requests. *)
Definition isHttpsGet (ev : Event) : bool :=
  match ev with
  | HttpsGet _ => true
  | _ => false
  end.

Definition isApiContentRequest (ev : Event) : bool :=
  match ev with
  | ReposGet _ _ | ReposGetContent _ _ _ _ => true
  | _ => false
  end.

(** [w'] differs from [w] at most in the file [destination] and by further
    [https.get] requests. *)
Definition onlyDownloads (destination : string) (w w' : World) : Prop :=
  settings w' = settings w
  /\ cache w' = cache w
  /\ repoCache w' = repoCache w
  /\ dirs w' = dirs w
  /\ delete destination (files w') = delete destination (files w)
  /\ requestsOnly isHttpsGet w w'.

(** Among the plugin's fields, [w'] differs from [w] at most in the snapshot
    record of [repo] and in the cache entry under [key]. *)
Definition ownEntriesOnly (repo key : string) (w w' : World) : Prop :=
  settings w' = settings w
  /\ delete repo (repoCache w') = delete repo (repoCache w)
  /\ delete key (cache w') = delete key (cache w).

(** [w'] has the result cache of [w]. *)
Definition cacheKept (w w' : World) : Prop := cache w' = cache w.

(** [w'] has the settings of [w], and its result cache if caching is off. *)
Definition cacheKeptWhenOff (w w' : World) : Prop :=
  settings w' = settings w
  /\ (cacheEnabled (settings w) = false -> cache w' = cache w).

(** [w'] has the files, directories and snapshot records of [w] and differs
    in the trace only by requests to the repository and content API. *)
Definition apiFootprint (w w' : World) : Prop :=
  files w' = files w
  /\ dirs w' = dirs w
  /\ repoCache w' = repoCache w
  /\ requestsOnly isApiContentRequest w w'.

(** A computation that throws leaves the result cache as it was. *)
Definition keepsCacheOnThrow {A} (m : Async A) : Prop :=
  forall w e w', m w = (Throw e, w') -> cache w' = cache w.

(** With this reply a rejected download leaves the destination behind:
    nothing unlinks after [https.get] has thrown, and after an early
    ['error'] event the write stream creates the file once the handler has
    run. *)
Definition leavesFile (r : HttpReply) : bool :=
  match r with
  | Thrown _ | EarlyError _ => true
  | _ => false
  end.

Module Fixtures.






(** GitHub's archive address answers with a redirect to a relative
    address, with which [https.get] throws. *)
Definition relativeRedirectEnv : Env :=
  {| Date_now := Date_now Demo.env;
     newOctokit := newOctokit Demo.env;
     https_get := fun url _ =>
       if String.eqb url "https://github.com/octo/demo/archive/main.zip"
       then Response 302 "Found" (Some "/octo/demo/zip/main") []
       else Thrown (Error "Invalid URL");
     extractAllTo := extractAllTo Demo.env;
     path_join := path_join Demo.env;
     path_relative := path_relative Demo.env;
     base64_toString := base64_toString Demo.env |}.

(** GitHub's archive address answers with a redirect to the download
    host. *)
Definition redirectingEnv : Env :=
  {| Date_now := Date_now Demo.env;
     newOctokit := newOctokit Demo.env;
     https_get := fun url _ =>
       if String.eqb url "https://github.com/octo/demo/archive/main.zip"
       then Response 302 "Found"
                     (Some "https://codeload.github.com/octo/demo/zip/main") []
       else Response 200 "OK" None Demo.archive;
     extractAllTo := extractAllTo Demo.env;
     path_join := path_join Demo.env;
     path_relative := path_relative Demo.env;
     base64_toString := base64_toString Demo.env |}.

End Fixtures.

(** * Properties *)

(** ** Keyword scan *)

Section ScanFacts.
Variables (owner repoName defaultBranch filePath : string).
Variable keywords : list string.

Local Abbreviation issueAt := (issueAt owner repoName defaultBranch filePath).
Local Abbreviation localLineLoop := (localLineLoop owner repoName defaultBranch filePath keywords).
Local Abbreviation remoteLineLoop := (remoteLineLoop owner repoName defaultBranch filePath keywords).

Lemma atLine_app n l1 l2 : atLine n (l1 ++ l2) = (atLine n l1 ++ atLine n l2)%list.
Proof. apply List.filter_app. Qed.

Lemma localKeywordLoop_first found ln ks :
  localKeywordLoop found ln ks
  = if existsb (localTest ln) ks then [found] else [].
Proof.
  induction ks as [|k ks IH]; simpl; [reflexivity|].
  destruct (localTest ln k); simpl; [reflexivity|exact IH].
Qed.

(** [break]: what follows the first matching keyword has no influence. *)
Lemma localKeywordLoop_break found ln before k after :
  Forall (fun k' => localTest ln k' = false) before ->
  localTest ln k = true ->
  localKeywordLoop found ln (before ++ k :: after) = [found].
Proof.
  intros Hb Hk. induction Hb as [|k' before Hk' _ IH]; simpl.
  - now rewrite Hk.
  - now rewrite Hk'.
Qed.

Lemma remoteKeywordLoop_repeat found ln ks :
  remoteKeywordLoop found ln ks
  = repeat found (length (List.filter (remoteTest ln) ks)).
Proof.
  induction ks as [|k ks IH]; simpl; [reflexivity|].
  destruct (remoteTest ln k); simpl; now rewrite IH.
Qed.

Lemma atLine_repeat_same n found k :
  line found = n -> atLine n (repeat found k) = repeat found k.
Proof.
  intros <-. unfold atLine.
  induction k as [|k IH]; simpl; [reflexivity|].
  now rewrite Nat.eqb_refl, IH.
Qed.

Lemma atLine_repeat_other n found k :
  line found <> n -> atLine n (repeat found k) = [].
Proof.
  intros Hne. unfold atLine.
  induction k as [|k IH]; simpl; [reflexivity|].
  destruct (Nat.eqb_spec (line found) n); [contradiction|exact IH].
Qed.

Lemma localKeywordLoop_as_repeat found ln ks :
  localKeywordLoop found ln ks
  = repeat found (if existsb (localTest ln) ks then 1 else 0)%nat.
Proof. rewrite localKeywordLoop_first. now destruct (existsb _ _). Qed.

Lemma atLine_localLineLoop_before n lines : forall j,
  (n <= j)%nat -> atLine n (localLineLoop j lines) = [].
Proof.
  induction lines as [|ln following IH]; intros j Hj; simpl; [reflexivity|].
  rewrite atLine_app, localKeywordLoop_as_repeat.
  rewrite atLine_repeat_other by (simpl; lia).
  rewrite IH by lia. reflexivity.
Qed.


Lemma nextLine_lookup (lines : list string) i :
  nextLine (drop (S i) lines)
  = match lines !! S i with
    | Some next => Js.newline +:+ Js.trim next
    | None => ""
    end.
Proof.
  revert i. induction lines as [|l0 lines IH]; intros i; [reflexivity|].
  destruct lines as [|l1 lines]; [now destruct i|].
  destruct i as [|i]; [reflexivity|].
  change (drop (S (S i)) (l0 :: l1 :: lines)) with (drop (S i) (l1 :: lines)).
  rewrite IH. reflexivity.
Qed.

Lemma atLine_localLineLoop (lines : list string) : forall j i ln,
  lines !! i = Some ln ->
  atLine (S (j + i)) (localLineLoop j lines)
  = if existsb (localTest ln) keywords
    then [issueAt (j + i) ln (drop (S i) lines)] else [].
Proof.
  induction lines as [|l0 following IH]; intros j i ln Hi; [discriminate|].
  simpl. rewrite atLine_app. destruct i as [|i]; simpl in Hi.
  - injection Hi as ->. rewrite Nat.add_0_r.
    rewrite atLine_localLineLoop_before by lia.
    rewrite localKeywordLoop_as_repeat, atLine_repeat_same by reflexivity.
    rewrite app_nil_r. simpl. now destruct (existsb _ _).
  - rewrite localKeywordLoop_as_repeat.
    rewrite atLine_repeat_other by (simpl; lia).
    replace (j + S i)%nat with (S j + i)%nat by lia.
    rewrite (IH (S j) i ln Hi). reflexivity.
Qed.


Lemma atLine_scanLocalContent (text : string) i ln :
  Js.split (ascii_of_nat 10) text !! i = Some ln ->
  atLine (S i) (scanLocalContent owner repoName defaultBranch filePath
                                 keywords text)
  = if existsb (localTest ln) keywords
    then [issueAt i ln (drop (S i) (Js.split (ascii_of_nat 10) text))]
    else [].
Proof. intros Hln. exact (atLine_localLineLoop _ 0%nat i ln Hln). Qed.

End ScanFacts.


(** C9. In the local scan every line of a scanned file yields at most one
    issue: none when the file is skipped (too large, NUL byte, run of control
    characters) or when no keyword occurs in the line, and otherwise exactly
    one, whichever and however many keywords occur; its snippet is the
    trimmed line, followed by a newline and the trimmed next line when there
    is a next line. *)
Theorem local_scan_one_issue_per_line
        (env : Env) (owner repoName defaultBranch searchDir : string)
        (keywords : list string) (f : FoundFile) (text : string)
        (i : nat) (ln : string) :
  foundText f = Some text ->
  Js.split (ascii_of_nat 10) text !! i = Some ln ->
  let relativePath :=
    Js.backslashesToSlashes (path_relative env searchDir (foundPath f)) in
  atLine (S i)
         (scanLocalFile env owner repoName defaultBranch searchDir keywords f)
  = if (500000 <? foundSize f) || Js.includes text Js.nul
       || Js.hasControlRun 50 text
    then []
    else if existsb (localTest ln) keywords then
      [{| file := relativePath;
          line := S i;
          content :=
            Js.trim ln
            +:+ match Js.split (ascii_of_nat 10) text !! S i with
                | Some next => Js.newline +:+ Js.trim next
                | None => ""
                end;
          url := "https://github.com/" +:+ owner +:+ "/" +:+ repoName
                 +:+ "/blob/" +:+ defaultBranch +:+ "/" +:+ relativePath
                 +:+ "#L" +:+ Js.showNat (S i) |}]
    else [].
Proof.
  intros Htext Hln. unfold scanLocalFile. rewrite Htext. cbv zeta.
  destruct (500000 <? foundSize f); [reflexivity|]. cbn [orb].
  destruct (Js.includes text Js.nul || Js.hasControlRun 50 text);
    [reflexivity|].
  rewrite (atLine_scanLocalContent _ _ _ _ _ _ _ _ Hln).
  destruct (existsb _ _); [|reflexivity].
  unfold issueAt. rewrite nextLine_lookup. reflexivity.
Qed.

Lemma local_scan_one_issue_per_line_witness :
  atLine 2 (scanLocalFile Demo.env "octo" "demo" "main"
                          "/tmp/octo-demo/demo-main" ["fix"; "TODO"; "parser"]
                          Demo.localFile)
  = [{| file := "src/a.py"; line := 2; content := "todo fix parser";
        url := "https://github.com/octo/demo/blob/main/src/a.py#L2" |}].
Proof.
  exact (local_scan_one_issue_per_line
           Demo.env "octo" "demo" "main" "/tmp/octo-demo/demo-main"
           ["fix"; "TODO"; "parser"] Demo.localFile
           ("x = 1" +:+ Js.newline +:+ "todo fix parser") 1 "todo fix parser"
           eq_refl eq_refl).
Defined.







(** ** Archive validation *)

Lemma missingSignature_false (header : list Byte.byte) :
  length header = 4%nat ->
  missingSignature header = false <-> header = zipSignature.
Proof.
  destruct header as [|b0 [|b1 [|b2 [|b3 [|b4 rest]]]]]; try discriminate.
  intros _. unfold missingSignature, zipSignature. cbn [nth].
  rewrite !orb_false_iff, !negb_false_iff. split.
  - intros [[[H0 H1] H2] H3].
    apply Byte.byte_dec_bl in H0, H1, H2, H3. now subst.
  - intros H. injection H as -> -> -> ->. repeat split; reflexivity.
Qed.

Lemma readHeader_length (bytes : list Byte.byte) : length (readHeader bytes) = 4%nat.
Proof.
  unfold readHeader. rewrite length_firstn, length_app, repeat_length. lia.
Qed.

(** A file shorter than four bytes never carries the signature: the zero
    padding of the buffer differs from it. *)
Lemma readHeader_signature (bytes : list Byte.byte) :
  readHeader bytes = zipSignature <-> firstn 4 bytes = zipSignature.
Proof.
  unfold readHeader, zipSignature.
  destruct bytes as [|b0 [|b1 [|b2 [|b3 rest]]]]; cbn; split; intros H;
    try discriminate H; try exact H.
Qed.

Lemma signature_check (bytes : list Byte.byte) :
  missingSignature (readHeader bytes) = false <-> firstn 4 bytes = zipSignature.
Proof.
  rewrite (missingSignature_false _ (readHeader_length bytes)).
  apply readHeader_signature.
Qed.

Lemma validateDownload_spec (destination : string) (w : World) (bytes : list Byte.byte) :
  files w !! destination = Some bytes ->
  validateDownload destination w
  = if missingSignature (readHeader bytes)
    then (Throw (Error "Invalid ZIP file: Not a valid ZIP file (missing PK signature)"),
          setFiles (delete destination (files w)) w)
    else (Return tt, w).
Proof.
  intros Hfile. unfold validateDownload, tryCatch, bind, getWorld.
  rewrite Hfile. destruct (missingSignature (readHeader bytes)); reflexivity.
Qed.

(** What [downloadFile] does with a [200] response, whatever the budget. *)
Lemma downloadFile_200 (env : Env) (fuel : nat) (url destination : string)
      (w : World) (statusMessage : string) (location : option string)
      (body : list Byte.byte) :
  https_get env url (credential w) = Response 200 statusMessage location body ->
  downloadFile env fuel url destination w
  = validateDownload destination
      (setFiles (<[destination := body]>
                   (files (emit (HttpsGet url)
                                (setFiles (<[destination := []]> (files w)) w))))
                (emit (HttpsGet url)
                      (setFiles (<[destination := []]> (files w)) w))).
Proof.
  intros Hget. destruct fuel; cbn [downloadFile]; rewrite Hget; reflexivity.
Qed.

(** C8. When the download ends with a [200] response, [downloadFile]
    resolves exactly when the first four bytes received are [50 4B 03 04],
    whatever follows them, and the file is then in place; otherwise it
    rejects with the invalid-archive error and the file is deleted. *)
Theorem download_signature_validation
        (env : Env) (fuel : nat) (url destination : string) (w : World)
        (statusMessage : string) (location : option string)
        (body : list Byte.byte) :
  https_get env url (credential w) = Response 200 statusMessage location body ->
  let outcome := fst (downloadFile env fuel url destination w) in
  let after := snd (downloadFile env fuel url destination w) in
  (outcome = Return tt <-> firstn 4 body = zipSignature)
  /\ (firstn 4 body = zipSignature ->
      files after !! destination = Some body)
  /\ (firstn 4 body <> zipSignature ->
      outcome = Throw (Error "Invalid ZIP file: Not a valid ZIP file (missing PK signature)")
      /\ files after !! destination = None).
Proof.
  intros Hget. cbv zeta.
  rewrite (downloadFile_200 _ _ _ _ _ _ _ _ Hget).
  rewrite (validateDownload_spec _ _ body) by apply lookup_insert_eq.
  pose proof (signature_check body) as Hsig.
  destruct (missingSignature (readHeader body)); cbn [fst snd].
  - assert (firstn 4 body <> zipSignature) as Hne
        by (intros H; apply Hsig in H; discriminate H).
    split; [|split].
    + split; [discriminate|]. intros H. contradiction.
    + intros H. contradiction.
    + intros _. split; [reflexivity|]. cbn. apply lookup_delete_eq.
  - assert (firstn 4 body = zipSignature) as Heq by (apply Hsig; reflexivity).
    split; [|split].
    + split; [intros _; exact Heq|reflexivity].
    + intros _. cbn. apply lookup_insert_eq.
    + intros H. contradiction.
Qed.

Lemma download_signature_validation_witness :
  fst (downloadFile Demo.env 0 "https://github.com/octo/demo/archive/main.zip"
                    "/tmp/octo-demo/demo-main.zip" Demo.fresh) = Return tt
  <-> firstn 4 Demo.archive = zipSignature.
Proof.
  exact (proj1 (download_signature_validation
                  Demo.env 0 "https://github.com/octo/demo/archive/main.zip"
                  "/tmp/octo-demo/demo-main.zip" Demo.fresh "OK" None
                  Demo.archive eq_refl)).
Defined.

(** An HTML error page sent with status 200 is rejected and removed, and so
    is a file of three bytes. *)
Example other_content_is_rejected :
  let page :=
    {| Date_now := Date_now Demo.env; newOctokit := newOctokit Demo.env;
       https_get := fun _ _ =>
         Response 200 "OK" None [Byte.x3c; Byte.x68; Byte.x74; Byte.x6d; Byte.x6c];
       extractAllTo := extractAllTo Demo.env; path_join := path_join Demo.env;
       path_relative := path_relative Demo.env;
       base64_toString := base64_toString Demo.env |} in
  let short :=
    {| Date_now := Date_now Demo.env; newOctokit := newOctokit Demo.env;
       https_get := fun _ _ =>
         Response 200 "OK" None [Byte.x50; Byte.x4b; Byte.x03];
       extractAllTo := extractAllTo Demo.env; path_join := path_join Demo.env;
       path_relative := path_relative Demo.env;
       base64_toString := base64_toString Demo.env |} in
  let invalid :=
    Throw (Error "Invalid ZIP file: Not a valid ZIP file (missing PK signature)") in
  fst (downloadFile page 0 "https://example.org/a.zip" "/tmp/a.zip" Demo.fresh)
  = invalid
  /\ files (snd (downloadFile page 0 "https://example.org/a.zip" "/tmp/a.zip"
                              Demo.fresh)) !! "/tmp/a.zip" = None
  /\ fst (downloadFile short 0 "https://example.org/a.zip" "/tmp/a.zip"
                       Demo.fresh) = invalid.
Proof. cbv zeta. repeat split; vm_compute; reflexivity. Qed.

(** ** Frame rules: what a computation leaves related *)

Section Steps.
Variable R : World -> World -> Prop.
Hypothesis frame : Frame R.

Lemma steps_ret {A} (a : A) : steps R (ret a).
Proof. intros w. apply (frame_refl R frame). Qed.

Lemma steps_throw {A} (e : JsError) : steps R (@throw A e).
Proof. intros w. apply (frame_refl R frame). Qed.

Lemma steps_getWorld : steps R getWorld.
Proof. intros w. apply (frame_refl R frame). Qed.

Lemma steps_outOfFuel {A} : steps R (fun w => (@OutOfFuel A, w)).
Proof. intros w. apply (frame_refl R frame). Qed.

Lemma steps_bind {A B} (m : Async A) (k : A -> Async B) :
  steps R m -> (forall a, steps R (k a)) -> steps R (bind m k).
Proof.
  intros Hm Hk w. unfold bind. specialize (Hm w).
  destruct (m w) as [[a|e|] w']; cbn [snd] in *; try exact Hm.
  eapply (frame_trans R frame); [exact Hm|apply Hk].
Qed.

Lemma steps_tryCatch {A} (m : Async A) (handler : JsError -> Async A) :
  steps R m -> (forall e, steps R (handler e)) -> steps R (tryCatch m handler).
Proof.
  intros Hm Hh w. unfold tryCatch. specialize (Hm w).
  destruct (m w) as [[a|e|] w']; cbn [snd] in *; try exact Hm.
  eapply (frame_trans R frame); [exact Hm|apply Hh].
Qed.

Lemma steps_modify (f : World -> World) :
  (forall w, R w (f w)) -> steps R (modify f).
Proof. intros Hf w. apply Hf. Qed.

Lemma steps_when (c : bool) (m : Async unit) :
  steps R m -> steps R (when c m).
Proof. intros Hm. destruct c; [exact Hm|apply steps_ret]. Qed.

Lemma steps_await {A} (ev : Event) (r : Reply A) :
  (forall w, R w (emit ev w)) -> steps R (await ev r).
Proof. intros Hev w. unfold await. destruct r; apply Hev. Qed.

Lemma steps_unlink (destination : string) : steps R (unlink destination).
Proof. apply steps_modify. intros w. apply (frame_files R frame). Qed.

Lemma steps_validateDownload (destination : string) :
  steps R (validateDownload destination).
Proof.
  unfold validateDownload. apply steps_tryCatch.
  - apply steps_bind; [apply steps_getWorld|]. intros w.
    destruct (files w !! destination); [|apply steps_throw].
    destruct (missingSignature _); [apply steps_throw|apply steps_ret].
  - intros e. apply steps_bind; [apply steps_unlink|].
    intros _. apply steps_throw.
Qed.

Variable env : Env.

Lemma steps_dateNow : steps R (dateNow env).
Proof. intros w. apply (frame_refl R frame). Qed.

Lemma steps_readTree (searchDir : string) : steps R (readTree env searchDir).
Proof.
  unfold readTree. apply steps_bind; [apply steps_getWorld|]. intros w.
  destruct (dirs w !! searchDir); [apply steps_ret|apply steps_throw].
Qed.

(** Downloads: only [https.get] requests are added. *)
Lemma steps_downloadFile :
  (forall url w, R w (emit (HttpsGet url) w)) ->
  forall fuel url destination, steps R (downloadFile env fuel url destination).
Proof.
  intros Hget fuel.
  assert (forall url destination w,
             R w (emit (HttpsGet url)
                       (setFiles (<[destination := []]> (files w)) w))) as Hstart.
  { intros url destination w. eapply (frame_trans R frame);
      [apply (frame_files R frame)|apply Hget]. }
  assert (forall (m : Async unit) url destination w,
             steps R m ->
             R w (snd (m (emit (HttpsGet url)
                          (setFiles (<[destination := []]> (files w)) w)))))
    as Hthen.
  { intros m url destination w Hm.
    eapply (frame_trans R frame); [apply Hstart|apply Hm]. }
  assert (forall err destination,
             steps R (unlink destination ;;; @throw unit err)) as Hfail.
  { intros err destination. apply steps_bind; [apply steps_unlink|].
    intros _. apply steps_throw. }
  assert (forall err destination,
             steps R (unlink destination ;;;
                      modify (fun w' =>
                                setFiles (<[destination := []]> (files w')) w') ;;;
                      @throw unit err)) as Hearly.
  { intros err destination. apply steps_bind; [apply steps_unlink|].
    intros _. apply steps_bind; [|intros _; apply steps_throw].
    apply steps_modify. intros w. apply (frame_files R frame). }
  induction fuel as [|fuel IH]; intros url destination w;
    cbn [downloadFile];
    (destruct (https_get env url (credential w))
      as [statusCode statusMessage location body|err|err|err|received];
     [|apply Hthen, Hfail|apply Hthen, Hearly|apply Hthen, steps_throw|
      cbn [snd]; eapply (frame_trans R frame);
      [apply Hstart|apply (frame_files R frame)]]).
  - destruct (((statusCode =? 302) || (statusCode =? 301)) && Js.truthy location);
      [apply Hstart|].
    destruct (negb (statusCode =? 200)); [apply Hthen, Hfail|].
    eapply (frame_trans R frame); [apply Hstart|].
    eapply (frame_trans R frame); [apply (frame_files R frame)|].
    apply steps_validateDownload.
  - destruct (((statusCode =? 302) || (statusCode =? 301)) && Js.truthy location).
    { eapply (frame_trans R frame); [apply Hstart|apply IH]. }
    destruct (negb (statusCode =? 200)); [apply Hthen, Hfail|].
    eapply (frame_trans R frame); [apply Hstart|].
    eapply (frame_trans R frame); [apply (frame_files R frame)|].
    apply steps_validateDownload.
Qed.

Lemma steps_extractZip (zipPath destPath : string) :
  (forall w, R w (emit (ExtractAllTo zipPath destPath) w)) ->
  steps R (extractZip env zipPath destPath).
Proof.
  intros Hev. unfold extractZip.
  apply steps_bind; [apply steps_getWorld|]. intros w.
  destruct (files w !! zipPath) as [bytes|]; [|apply steps_throw].
  destruct (Z.of_nat (length bytes) <? 100); [apply steps_throw|].
  apply steps_tryCatch.
  - apply steps_bind; [apply steps_await; exact Hev|].
    intros extracted. apply steps_modify. intros w'.
    apply (frame_dirs R frame).
  - intros e. destruct (Js.includes _ _); [apply steps_throw|].
    destruct (Js.includes _ _); apply steps_throw.
Qed.

Lemma steps_refreshSnapshot fuel repo owner repoName defaultBranch commit repoDir :
  (forall ev w, isDownloadOrExtraction ev = true -> R w (emit ev w)) ->
  steps R (refreshSnapshot env fuel repo owner repoName defaultBranch commit
                           repoDir).
Proof.
  intros Hev. unfold refreshSnapshot.
  apply steps_bind.
  { apply steps_downloadFile. intros url w. now apply Hev. }
  intros _. apply steps_bind.
  { apply steps_extractZip. intros w. now apply Hev. }
  intros _. apply steps_bind; [apply steps_dateNow|].
  intros now. apply steps_modify. intros w. apply (frame_repoCache R frame).
Qed.

Lemma steps_storeAndReturn (cacheKey : string) (results : list Issue) :
  (forall w t, R w (setCache (<[cacheKey := {| timestamp := t;
                                               data := Results results |}]>
                                (cache w)) w)) ->
  steps R (storeAndReturn env cacheKey results).
Proof.
  intros Hstore. unfold storeAndReturn.
  apply steps_bind; [apply steps_getWorld|]. intros w.
  apply steps_bind; [|intros _; apply steps_ret].
  apply steps_when. apply steps_bind; [apply steps_dateNow|].
  intros now. apply steps_modify. intros w'. apply Hstore.
Qed.

Lemma steps_collectFiles recurse contentArray :
  (forall path, steps R (recurse path)) ->
  steps R (collectFiles recurse contentArray).
Proof.
  intros Hrec. induction contentArray as [|item rest IH]; cbn [collectFiles];
    [apply steps_ret|].
  apply steps_bind.
  { destruct (GitHubContent.type_ item);
      [apply Hrec|apply steps_ret|apply steps_ret|apply steps_ret]. }
  intros here. apply steps_bind; [exact IH|]. intros more. apply steps_ret.
Qed.

Lemma steps_getFilesRecursively octokit owner repoName defaultBranch :
  (forall path w,
      R w (emit (ReposGetContent owner repoName path defaultBranch) w)) ->
  forall fuel path,
    steps R (getFilesRecursively fuel octokit owner repoName defaultBranch
                                 path).
Proof.
  intros Hev fuel. induction fuel as [|fuel IH]; intros path;
    cbn [getFilesRecursively]; [apply steps_outOfFuel|].
  apply steps_bind; [apply steps_await; apply Hev|].
  intros contents. apply steps_collectFiles. exact IH.
Qed.

Lemma steps_scanRemoteFile octokit owner repoName defaultBranch keywords f :
  (forall path w,
      R w (emit (ReposGetContent owner repoName path defaultBranch) w)) ->
  steps R (scanRemoteFile env octokit owner repoName defaultBranch keywords f).
Proof.
  intros Hev. unfold scanRemoteFile.
  destruct (_ || _); [apply steps_ret|].
  apply steps_bind; [apply steps_await; apply Hev|].
  intros [items|fileData]; [apply steps_ret|].
  destruct (negb _); apply steps_ret.
Qed.

Lemma steps_scanRemoteFiles octokit owner repoName defaultBranch keywords fs :
  (forall path w,
      R w (emit (ReposGetContent owner repoName path defaultBranch) w)) ->
  steps R (scanRemoteFiles env octokit owner repoName defaultBranch keywords fs).
Proof.
  intros Hev. induction fs as [|f rest IH]; cbn [scanRemoteFiles];
    [apply steps_ret|].
  apply steps_bind; [now apply steps_scanRemoteFile|].
  intros here. apply steps_bind; [exact IH|]. intros more. apply steps_ret.
Qed.
End Steps.

(** ** The two relations are frames *)

Lemma requestsOnly_frame (allowed : Event -> bool) : Frame (requestsOnly allowed).
Proof.
  split.
  - intros w. exists []. now rewrite app_nil_r.
  - intros w1 w2 w3 [m1 [E1 A1]] [m2 [E2 A2]]. exists (m1 ++ m2)%list.
    rewrite E2, E1, <- app_assoc, forallb_app, A1, A2. now split.
  - intros w f. exists []. cbn. now rewrite app_nil_r.
  - intros w d. exists []. cbn. now rewrite app_nil_r.
  - intros w r. exists []. cbn. now rewrite app_nil_r.
Qed.

Lemma requestsOnly_emit (allowed : Event -> bool) ev w :
  allowed ev = true -> requestsOnly allowed w (emit ev w).
Proof. intros Hev. exists [ev]. cbn. now rewrite Hev. Qed.

Lemma requestsOnly_setCache (allowed : Event -> bool) c w :
  requestsOnly allowed w (setCache c w).
Proof. exists []. cbn. now rewrite app_nil_r. Qed.

Lemma storesOnlyResults_frame (key : string) : Frame (storesOnlyResults key).
Proof.
  split.
  - intros w k. now left.
  - intros w1 w2 w3 H12 H23 k.
    destruct (H23 k) as [E23|[-> R23]]; [|right; now split].
    destruct (H12 k) as [E12|[-> R12]].
    + left. congruence.
    + right. split; [reflexivity|]. rewrite E23. exact R12.
  - intros w f k. now left.
  - intros w d k. now left.
  - intros w r k. now left.
Qed.

Lemma storesOnlyResults_emit (key : string) ev w :
  storesOnlyResults key w (emit ev w).
Proof. intros k. now left. Qed.

Lemma storesOnlyResults_store (key : string) w t results :
  storesOnlyResults key w
    (setCache (<[key := {| timestamp := t; data := Results results |}]> (cache w)) w).
Proof.
  intros k. cbn. destruct (decide (key = k)) as [<-|Hne].
  - right. split; [reflexivity|]. exists t, results. apply lookup_insert_eq.
  - left. now apply lookup_insert_ne.
Qed.

(** ** Frame rules for the two acquisition functions *)

Section TopSteps.
Variable R : World -> World -> Prop.
Hypothesis frame : Frame R.
Variable env : Env.
Variable cacheKey : string.
Hypothesis emitOther : forall ev w, isReposGet ev = false -> R w (emit ev w).
Hypothesis store :
  forall w t results,
    R w (setCache (<[cacheKey := {| timestamp := t; data := Results results |}]>
                     (cache w)) w).

Lemma steps_scanSnapshot fuel octokit repo owner repoName keywords repoDir
      defaultBranch :
  steps R (scanSnapshot env fuel octokit repo owner repoName keywords cacheKey
                        repoDir defaultBranch).
Proof.
  unfold scanSnapshot.
  apply steps_bind; [exact frame| |].
  { apply steps_await. intros w. now apply emitOther. }
  intros latestCommit. apply steps_bind; [exact frame| |].
  { now apply steps_getWorld. }
  intros w1. apply steps_bind; [exact frame| |].
  { destruct (upToDate w1 repo latestCommit); [now apply steps_ret|].
    apply steps_refreshSnapshot; [exact frame|].
    intros ev w Hev. apply emitOther. now destruct ev. }
  intros _. apply steps_bind; [exact frame| |].
  { now apply steps_readTree. }
  intros found. now apply steps_storeAndReturn.
Qed.

Lemma steps_scanBranch fuel octokit owner repoName keywords defaultBranch :
  steps R (scanBranch env fuel octokit owner repoName keywords cacheKey
                      defaultBranch).
Proof.
  unfold scanBranch.
  apply steps_bind; [exact frame| |].
  { apply steps_getFilesRecursively; [exact frame|].
    intros path w. now apply emitOther. }
  intros found. apply steps_bind; [exact frame| |].
  { apply steps_scanRemoteFiles; [exact frame|].
    intros path w. now apply emitOther. }
  intros results. now apply steps_storeAndReturn.
Qed.
End TopSteps.

(** ** Cache lookups *)

Lemma cachedOr_spec (env : Env) (key : string) (rest : Async Payload) (w : World) :
  cachedOr env key rest w
  = match liveEntry env w key with
    | Some entry => (Return (data entry), w)
    | None => rest w
    end.
Proof.
  unfold cachedOr, liveEntry, bind, getWorld, dateNow, ret.
  destruct (cacheEnabled (settings w)); [|reflexivity].
  destruct (cache w !! key) as [entry|]; [|reflexivity].
  destruct (_ <? _); reflexivity.
Qed.

Lemma fetchIssuesLocally_spec (env : Env) (fuel : nat) (repo : string)
      (keywords : list string) (w : World) :
  fetchIssuesLocally env fuel repo keywords w
  = if rejectedByCheck repo then (Throw invalidFormat, w)
    else match liveEntry env w (cacheKeyOf repo keywords) with
         | Some entry => (Return (data entry), w)
         | None =>
             scanLocally env fuel repo
                         (default "" (Js.split "/" repo !! 0%nat))
                         (default "" (Js.split "/" repo !! 1%nat))
                         keywords (cacheKeyOf repo keywords) w
         end.
Proof.
  unfold fetchIssuesLocally, rejectedByCheck. cbv zeta.
  destruct (_ || _); [reflexivity|]. apply cachedOr_spec.
Qed.

Lemma scanRemotely_spec (env : Env) (fuel : nat) (repo : string)
      (keywords : list string) (key : string) (w : World) :
  scanRemotely env fuel repo keywords key w
  = if rejectedByCheck repo then (Throw invalidFormat, w)
    else
      let octokit := newOctokit env (credential w) in
      let owner := default "" (Js.split "/" repo !! 0%nat) in
      let repoName := default "" (Js.split "/" repo !! 1%nat) in
      (defaultBranch <~ await (ReposGet owner repoName)
                              (repos_get octokit owner repoName) ;;
       scanBranch env fuel octokit owner repoName keywords key defaultBranch) w.
Proof.
  unfold scanRemotely, rejectedByCheck, bind at 1, getWorld. cbv zeta.
  destruct (_ || _); reflexivity.
Qed.

Lemma fetchIssues_spec (env : Env) (fuel : nat) (repo : string)
      (keywords : list string) (w : World) :
  fetchIssues env fuel repo keywords w
  = if knownRateLimited env w repo then
      tryCatch (fetchIssuesLocally env fuel repo keywords)
               (fun _ => throw rateLimitExceeded) w
    else match liveEntry env w (cacheKeyOf repo keywords) with
         | Some entry => (Return (data entry), w)
         | None =>
             scanRemotely env fuel repo keywords (cacheKeyOf repo keywords) w
         end.
Proof.
  unfold fetchIssues, knownRateLimited. cbv zeta.
  unfold bind at 1, getWorld. unfold liveEntry at 1.
  destruct (cacheEnabled (settings w)); [|apply cachedOr_spec].
  destruct (cache w !! rateLimitKeyOf repo) as [entry|]; [|apply cachedOr_spec].
  destruct (isTrue (data entry)) eqn:Hflag.
  - unfold bind, dateNow. cbv beta iota.
    destruct (Date_now env (trace w) - timestamp entry <? expiryTime w);
      try rewrite Hflag; first [apply cachedOr_spec|reflexivity].
  - destruct (Date_now env (trace w) - timestamp entry <? expiryTime w);
      try rewrite Hflag; apply cachedOr_spec.
Qed.

(** ** Repository identifiers *)

Lemma rejectedByCheck_not_owner_slash_name (repo : string) :
  rejectedByCheck repo = true -> exactlyOwnerSlashName repo = false.
Proof.
  unfold rejectedByCheck, exactlyOwnerSlashName. cbv zeta.
  destruct (Js.split "/" repo) as [|owner [|name [|third rest]]]; try reflexivity.
  cbn. destruct (String.eqb owner ""), (String.eqb name ""); cbn;
    intros H; try reflexivity; discriminate H.
Qed.

(** C1, as the code has it. An identifier whose first or second
    [/]-separated segment is missing or empty makes [fetchIssuesLocally] fail
    with the invalid-format error, and [fetchIssues] too unless the call is
    answered from the cache (a live rate-limit entry turns the error into
    the rate-limit error, a live result entry is returned); in every case
    the world is left as it was, so no request has been sent. *)
Theorem malformed_identifier_fails_before_any_request
        (env : Env) (fuel : nat) (repo : string) (keywords : list string)
        (w : World) :
  rejectedByCheck repo = true ->
  fetchIssuesLocally env fuel repo keywords w = (Throw invalidFormat, w)
  /\ fetchIssues env fuel repo keywords w
     = (if knownRateLimited env w repo then Throw rateLimitExceeded
        else match liveEntry env w (cacheKeyOf repo keywords) with
             | Some entry => Return (data entry)
             | None => Throw invalidFormat
             end,
        w).
Proof.
  intros Hrejected.
  assert (fetchIssuesLocally env fuel repo keywords w = (Throw invalidFormat, w))
    as Hlocal by (rewrite fetchIssuesLocally_spec; now rewrite Hrejected).
  split; [exact Hlocal|].
  rewrite fetchIssues_spec. destruct (knownRateLimited env w repo).
  - unfold tryCatch. now rewrite Hlocal.
  - destruct (liveEntry env w (cacheKeyOf repo keywords)); [reflexivity|].
    rewrite scanRemotely_spec. now rewrite Hrejected.
Qed.

Lemma malformed_identifier_fails_before_any_request_witness :
  fetchIssuesLocally Demo.env 3 "octo" ["TODO"] Demo.fresh
  = (Throw invalidFormat, Demo.fresh)
  /\ fetchIssues Demo.env 3 "octo" ["TODO"] Demo.fresh
     = (Throw invalidFormat, Demo.fresh).
Proof.
  exact (malformed_identifier_fails_before_any_request
           Demo.env 3 "octo" ["TODO"] Demo.fresh eq_refl).
Defined.

(** C1 as stated fails: [a/b/c] has two slashes, yet both functions take it
    as owner [a] and name [b] and send the repository request. *)
Lemma three_segment_identifier_is_accepted :
  exactlyOwnerSlashName "a/b/c" = false
  /\ fst (fetchIssuesLocally Demo.env 3 "a/b/c" ["TODO"] Demo.fresh)
     = Throw Demo.notFound
  /\ trace (snd (fetchIssuesLocally Demo.env 3 "a/b/c" ["TODO"] Demo.fresh))
     = [ReposGet "a" "b"]
  /\ fst (fetchIssues Demo.env 3 "a/b/c" ["TODO"] Demo.fresh)
     = Throw Demo.notFound
  /\ trace (snd (fetchIssues Demo.env 3 "a/b/c" ["TODO"] Demo.fresh))
     = [ReposGet "a" "b"].
Proof. repeat split; vm_compute; reflexivity. Qed.

Lemma split_without_separator (c : ascii) (s : string) :
  lacks c s -> Js.split c s = [s].
Proof.
  induction s as [|a s IH]; [reflexivity|]. intros [Hne Hs]. cbn.
  destruct (Ascii.eqb_spec a c) as [->|_]; [contradiction|].
  now rewrite (IH Hs).
Qed.

(** An identifier without any slash is rejected. *)
Lemma no_slash_is_rejected (repo : string) :
  lacks "/" repo -> rejectedByCheck repo = true.
Proof.
  intros Hnone. unfold rejectedByCheck. cbv zeta.
  rewrite (split_without_separator _ _ Hnone). cbn.
  now destruct (negb (negb _)).
Qed.

(** Whatever the specification's format accepts passes the check. *)
Lemma owner_slash_name_passes_check (repo : string) :
  exactlyOwnerSlashName repo = true -> rejectedByCheck repo = false.
Proof.
  intros Hok. destruct (rejectedByCheck repo) eqn:Hrej; [|reflexivity].
  rewrite (rejectedByCheck_not_owner_slash_name _ Hrej) in Hok.
  discriminate Hok.
Qed.

Example identifier_check_examples :
  rejectedByCheck "octo" = true
  /\ rejectedByCheck "" = true
  /\ rejectedByCheck "/demo" = true
  /\ rejectedByCheck "octo/" = true
  /\ rejectedByCheck "octo//demo" = true
  /\ rejectedByCheck "octo/demo" = false
  /\ rejectedByCheck "a/b/c" = false
  /\ rejectedByCheck "a/b/" = false.
Proof. repeat split; reflexivity. Qed.

(** ** Snapshot reuse *)

(** Unfolds the monad's operations in the goal. *)
Ltac run :=
  unfold bind, ret, throw, getWorld, modify, when, await, tryCatch, dateNow;
  cbv beta iota.

Lemma storeAndReturn_spec (env : Env) (key : string) (results : list Issue)
      (w : World) :
  storeAndReturn env key results w
  = (Return (Results results),
     if cacheEnabled (settings w)
     then setCache (<[key := {| timestamp := Date_now env (trace w);
                                data := Results results |}]> (cache w)) w
     else w).
Proof.
  unfold storeAndReturn. run. destruct (cacheEnabled (settings w)); reflexivity.
Qed.

Lemma storeAndReturn_keeps (env : Env) (key : string) (results : list Issue)
      (w : World) :
  let w' := snd (storeAndReturn env key results w) in
  trace w' = trace w /\ files w' = files w /\ repoCache w' = repoCache w
  /\ dirs w' = dirs w.
Proof.
  rewrite storeAndReturn_spec. cbn [snd].
  destruct (cacheEnabled (settings w)); repeat split; reflexivity.
Qed.

(** With the recorded commit at the branch head, [scanSnapshot] sends the
    branch request and nothing else, and touches no file. *)
Lemma scanSnapshot_upToDate (env : Env) (fuel : nat) (octokit : Octokit)
      (repo owner repoName : string) (keywords : list string)
      (key repoDir defaultBranch : string) (w : World) (known : RepoCache) :
  repoCache w !! repo = Some known ->
  (forall sha,
      repos_getBranch octokit owner repoName defaultBranch = Resolved sha ->
      sha = latestCommit known) ->
  let w' := snd (scanSnapshot env fuel octokit repo owner repoName keywords key
                              repoDir defaultBranch w) in
  trace w' = (trace w ++ [ReposGetBranch owner repoName defaultBranch])%list
  /\ files w' = files w /\ repoCache w' = repoCache w.
Proof.
  intros Hknown Hhead. unfold scanSnapshot. run.
  destruct (repos_getBranch octokit owner repoName defaultBranch)
    as [sha|err]; [|cbn; auto].
  rewrite (Hhead sha eq_refl).
  unfold upToDate. cbn [repoCache emit]. rewrite Hknown, String.eqb_refl.
  unfold readTree. run. cbn [dirs emit].
  destruct (dirs w !! _) as [items|]; [|cbn; auto].
  match goal with
  | |- context [storeAndReturn env key ?r ?w0] =>
      pose proof (storeAndReturn_keeps env key r w0) as Hkeep;
      destruct (storeAndReturn env key r w0) as [[p|e|] w1]
  end; cbn [snd] in *; destruct Hkeep as (-> & -> & -> & _); cbn; auto.
Qed.

(** C6. When a snapshot record exists for the repository and the commit
    just retrieved from the branch head is the recorded one,
    [fetchIssuesLocally] sends no download request, extracts nothing and
    leaves every file as it was. *)
Theorem unchanged_snapshot_is_not_downloaded
        (env : Env) (fuel : nat) (repo : string) (keywords : list string)
        (w : World) (known : RepoCache) :
  repoCache w !! repo = Some known ->
  (forall defaultBranch sha,
      let octokit := newOctokit env (credential w) in
      let owner := default "" (Js.split "/" repo !! 0%nat) in
      let repoName := default "" (Js.split "/" repo !! 1%nat) in
      repos_get octokit owner repoName = Resolved defaultBranch ->
      repos_getBranch octokit owner repoName defaultBranch = Resolved sha ->
      sha = latestCommit known) ->
  let w' := snd (fetchIssuesLocally env fuel repo keywords w) in
  requestsOnly (fun ev => negb (isDownloadOrExtraction ev)) w w'
  /\ files w' = files w.
Proof.
  intros Hknown Hhead. cbv zeta in *.
  rewrite fetchIssuesLocally_spec.
  destruct (rejectedByCheck repo).
  { split; [apply (frame_refl _ (requestsOnly_frame _))|reflexivity]. }
  destruct (liveEntry env w (cacheKeyOf repo keywords)).
  { split; [apply (frame_refl _ (requestsOnly_frame _))|reflexivity]. }
  unfold scanLocally. run.
  set (owner := default "" (Js.split "/" repo !! 0%nat)) in *.
  set (repoName := default "" (Js.split "/" repo !! 1%nat)) in *.
  set (octokit := newOctokit env (credential w)) in *.
  set (repoDir := path_join env (tempDir (settings w)) (owner +:+ "-" +:+ repoName)).
  assert (forall w0,
             trace w0 = trace w -> files w0 = files w ->
             repoCache w0 = repoCache w ->
             let w' :=
               snd ((defaultBranch <~ await (ReposGet owner repoName)
                                            (repos_get octokit owner repoName) ;;
                     scanSnapshot env fuel octokit repo owner repoName keywords
                                  (cacheKeyOf repo keywords) repoDir
                                  defaultBranch) w0) in
             requestsOnly (fun ev => negb (isDownloadOrExtraction ev)) w w'
             /\ files w' = files w) as Htail.
  { intros w0 Ht0 Hf0 Hr0. run.
    destruct (repos_get octokit owner repoName) as [defaultBranch|err] eqn:Hget.
    - pose proof (scanSnapshot_upToDate
                    env fuel octokit repo owner repoName keywords
                    (cacheKeyOf repo keywords) repoDir defaultBranch
                    (emit (ReposGet owner repoName) w0) known) as Hsnap.
      cbv zeta in Hsnap.
      destruct Hsnap as (Ht & Hf & _).
      + cbn [repoCache emit]. now rewrite Hr0.
      + intros sha. now apply Hhead.
      + split.
        * exists [ReposGet owner repoName;
                  ReposGetBranch owner repoName defaultBranch].
          rewrite Ht. cbn [trace emit]. rewrite Ht0, <- app_assoc. now split.
        * rewrite Hf. exact Hf0.
    - cbn [snd]. split; [|exact Hf0].
      exists [ReposGet owner repoName]. cbn [trace emit]. now rewrite Ht0. }
  destruct (negb (bool_decide (is_Some (dirs w !! repoDir))));
    apply Htail; reflexivity.
Qed.

Lemma unchanged_snapshot_is_not_downloaded_witness :
  requestsOnly (fun ev => negb (isDownloadOrExtraction ev)) Demo.afterFirst
               (snd (fetchIssuesLocally Demo.env 3 "octo/demo" ["TODO"]
                                        Demo.afterFirst))
  /\ files (snd (fetchIssuesLocally Demo.env 3 "octo/demo" ["TODO"]
                                    Demo.afterFirst))
     = files Demo.afterFirst.
Proof.
  apply (unchanged_snapshot_is_not_downloaded
           Demo.env 3 "octo/demo" ["TODO"] Demo.afterFirst
           {| latestCommit := "c0ffee";
              downloadPath := "/tmp/octo-demo/demo-main.zip";
              extractPath := "/tmp/octo-demo/demo-main";
              repoTimestamp := 1000004 |}).
  - vm_compute. reflexivity.
  - intros defaultBranch sha octokit owner repoName _ Hhead.
    vm_compute in Hhead.
    injection Hhead as Hsha. rewrite <- Hsha. reflexivity.
Defined.

(** The first acquisition downloads and extracts, the second one does
    neither. *)
Example second_acquisition_requests :
  trace Demo.afterFirst
  = [ReposGet "octo" "demo"; ReposGetBranch "octo" "demo" "main";
     HttpsGet "https://github.com/octo/demo/archive/main.zip";
     ExtractAllTo "/tmp/octo-demo/demo-main.zip" "/tmp/octo-demo"]
  /\ trace (snd (fetchIssuesLocally Demo.env 3 "octo/demo" ["TODO"]
                                    Demo.afterFirst))
     = (trace Demo.afterFirst
        ++ [ReposGet "octo" "demo"; ReposGetBranch "octo" "demo" "main"])%list.
Proof. split; vm_compute; reflexivity. Qed.

(** ** Expiry *)

Lemma oneFetch_after (owner repoName : string) (w w0 w' : World) :
  trace w0 = trace w ->
  requestsOnly (fun ev => negb (isReposGet ev))
               (emit (ReposGet owner repoName) w0) w' ->
  oneFetch owner repoName w w'.
Proof.
  intros Ht0 [more [Ht Hmore]]. exists more. split; [|exact Hmore].
  rewrite Ht. cbn [trace emit]. now rewrite Ht0, <- app_assoc.
Qed.

Lemma scanLocally_oneFetch (env : Env) (fuel : nat)
      (repo owner repoName : string) (keywords : list string) (key : string)
      (w : World) :
  oneFetch owner repoName w
           (snd (scanLocally env fuel repo owner repoName keywords key w)).
Proof.
  unfold scanLocally. run.
  set (octokit := newOctokit env (credential w)).
  set (repoDir := path_join env _ _).
  assert (forall w0,
             trace w0 = trace w ->
             oneFetch owner repoName w
               (snd ((defaultBranch <~ await (ReposGet owner repoName)
                                            (repos_get octokit owner repoName) ;;
                      scanSnapshot env fuel octokit repo owner repoName keywords
                                   key repoDir defaultBranch) w0))) as Htail.
  { intros w0 Ht0. run.
    destruct (repos_get octokit owner repoName) as [defaultBranch|err].
    - apply (oneFetch_after _ _ _ w0 _ Ht0).
      apply steps_scanSnapshot.
      + apply requestsOnly_frame.
      + intros ev w1 Hev. apply requestsOnly_emit. now rewrite Hev.
      + intros w1 t results. apply requestsOnly_setCache.
    - apply (oneFetch_after _ _ _ w0 _ Ht0).
      apply (frame_refl _ (requestsOnly_frame _)). }
  destruct (negb (bool_decide (is_Some (dirs w !! repoDir))));
    apply Htail; reflexivity.
Qed.

Lemma scanRemotely_oneFetch (env : Env) (fuel : nat) (repo : string)
      (keywords : list string) (key : string) (w : World) :
  rejectedByCheck repo = false ->
  oneFetch (default "" (Js.split "/" repo !! 0%nat))
           (default "" (Js.split "/" repo !! 1%nat)) w
           (snd (scanRemotely env fuel repo keywords key w)).
Proof.
  intros Hok. rewrite scanRemotely_spec, Hok. cbv zeta. run.
  destruct (repos_get _ _ _) as [defaultBranch|err].
  - apply (oneFetch_after _ _ _ w _ eq_refl).
    apply steps_scanBranch.
    + apply requestsOnly_frame.
    + intros ev w1 Hev. apply requestsOnly_emit. now rewrite Hev.
    + intros w1 t results. apply requestsOnly_setCache.
  - apply (oneFetch_after _ _ _ w _ eq_refl).
    apply (frame_refl _ (requestsOnly_frame _)).
Qed.

Lemma expired_not_live (env : Env) (w : World) (key : string) (entry : CacheEntry) :
  cache w !! key = Some entry ->
  Date_now env (trace w) - timestamp entry >= cacheExpiry (settings w) * 60000 ->
  liveEntry env w key = None.
Proof.
  intros Hentry Hexpired. unfold liveEntry, expiryTime. rewrite Hentry.
  destruct (cacheEnabled (settings w)); [|reflexivity].
  destruct (Z.ltb_spec (Date_now env (trace w) - timestamp entry)
                       (cacheExpiry (settings w) * 60 * 1000)); [lia|reflexivity].
Qed.

Lemma absent_not_live (env : Env) (w : World) (key : string) :
  liveEntry env (setCache (delete key (cache w)) w) key = None.
Proof.
  unfold liveEntry. cbn [cache settings setCache].
  rewrite lookup_delete_eq. now destruct (cacheEnabled (settings w)).
Qed.

(** C7. A lookup made when [now - timestamp >= cacheExpiry * 60000] uses the
    entry no more than it would use a missing one, and both functions go on
    to the acquisition itself: for an identifier that passes the check,
    exactly one repository request is sent. *)
Theorem expired_entry_is_refetched
        (env : Env) (fuel : nat) (repo : string) (keywords : list string)
        (w : World) (entry : CacheEntry) :
  let key := cacheKeyOf repo keywords in
  let owner := default "" (Js.split "/" repo !! 0%nat) in
  let repoName := default "" (Js.split "/" repo !! 1%nat) in
  cache w !! key = Some entry ->
  Date_now env (trace w) - timestamp entry >= cacheExpiry (settings w) * 60000 ->
  liveEntry env w key = liveEntry env (setCache (delete key (cache w)) w) key
  /\ fetchIssuesLocally env fuel repo keywords w
     = (if rejectedByCheck repo then (Throw invalidFormat, w)
        else scanLocally env fuel repo owner repoName keywords key w)
  /\ fetchIssues env fuel repo keywords w
     = (if knownRateLimited env w repo
        then tryCatch (fetchIssuesLocally env fuel repo keywords)
                      (fun _ => throw rateLimitExceeded) w
        else scanRemotely env fuel repo keywords key w)
  /\ (rejectedByCheck repo = false ->
      oneFetch owner repoName w
               (snd (fetchIssuesLocally env fuel repo keywords w))
      /\ oneFetch owner repoName w
                  (snd (fetchIssues env fuel repo keywords w))).
Proof.
  intros key owner repoName Hentry Hexpired.
  pose proof (expired_not_live env w key entry Hentry Hexpired) as Hmiss.
  assert (fetchIssuesLocally env fuel repo keywords w
          = (if rejectedByCheck repo then (Throw invalidFormat, w)
             else scanLocally env fuel repo owner repoName keywords key w))
    as Hlocal.
  { rewrite fetchIssuesLocally_spec. fold key. now rewrite Hmiss. }
  assert (fetchIssues env fuel repo keywords w
          = (if knownRateLimited env w repo
             then tryCatch (fetchIssuesLocally env fuel repo keywords)
                           (fun _ => throw rateLimitExceeded) w
             else scanRemotely env fuel repo keywords key w)) as Hremote.
  { rewrite fetchIssues_spec. fold key. now rewrite Hmiss. }
  split; [now rewrite Hmiss, absent_not_live|].
  split; [exact Hlocal|]. split; [exact Hremote|].
  intros Hok.
  assert (oneFetch owner repoName w
                   (snd (fetchIssuesLocally env fuel repo keywords w)))
    as Hone.
  { rewrite Hlocal, Hok. apply scanLocally_oneFetch. }
  split; [exact Hone|].
  rewrite Hremote. destruct (knownRateLimited env w repo).
  - unfold tryCatch, throw.
    destruct (fetchIssuesLocally env fuel repo keywords w) as [[p|e|] w'];
      exact Hone.
  - now apply scanRemotely_oneFetch.
Qed.

Lemma expired_entry_is_refetched_witness :
  oneFetch "octo" "demo" Demo.stale
           (snd (fetchIssuesLocally Demo.env 3 "octo/demo" ["TODO"] Demo.stale))
  /\ oneFetch "octo" "demo" Demo.stale
              (snd (fetchIssues Demo.env 3 "octo/demo" ["TODO"] Demo.stale)).
Proof.
  refine (proj2 (proj2 (proj2 (expired_entry_is_refetched
                                 Demo.env 3 "octo/demo" ["TODO"] Demo.stale
                                 Demo.staleEntry _ _))) eq_refl).
  - vm_compute. reflexivity.
  - vm_compute. discriminate.
Defined.

(** One millisecond earlier the entry is still served. *)
Example entry_served_until_expiry :
  fetchIssues
    {| Date_now := fun _ => 999999; newOctokit := newOctokit Demo.env;
       https_get := https_get Demo.env; extractAllTo := extractAllTo Demo.env;
       path_join := path_join Demo.env; path_relative := path_relative Demo.env;
       base64_toString := base64_toString Demo.env |}
    3 "octo/demo" ["TODO"] Demo.stale
  = (Return (Results []), Demo.stale).
Proof. vm_compute. reflexivity. Qed.

(** ** What the acquisition functions write into the cache *)

Section CacheWrites.
Variable R : World -> World -> Prop.
Hypothesis frame : Frame R.
Variable env : Env.
Variables (repo : string) (keywords : list string).
Hypothesis emitAny : forall ev w, R w (emit ev w).
Hypothesis store :
  forall w t results,
    R w (setCache (<[cacheKeyOf repo keywords :=
                       {| timestamp := t; data := Results results |}]>
                     (cache w)) w).

Lemma steps_fetchIssuesLocally fuel :
  steps R (fetchIssuesLocally env fuel repo keywords).
Proof.
  intros w. rewrite fetchIssuesLocally_spec.
  destruct (rejectedByCheck repo); [apply (frame_refl R frame)|].
  destruct (liveEntry env w _); [apply (frame_refl R frame)|].
  revert w. unfold scanLocally.
  apply steps_bind; [exact frame|now apply steps_getWorld|]. intros w.
  apply steps_bind; [exact frame| |].
  { apply steps_when; [exact frame|]. apply steps_modify.
    intros w'. apply (frame_dirs R frame). }
  intros _. apply steps_bind; [exact frame|now apply steps_await|].
  intros defaultBranch. apply steps_scanSnapshot; auto.
Qed.

Lemma steps_fetchIssues fuel : steps R (fetchIssues env fuel repo keywords).
Proof.
  intros w. rewrite fetchIssues_spec.
  destruct (knownRateLimited env w repo).
  { apply steps_tryCatch; [exact frame|apply steps_fetchIssuesLocally|].
    intros e. now apply steps_throw. }
  destruct (liveEntry env w _); [apply (frame_refl R frame)|].
  rewrite scanRemotely_spec.
  destruct (rejectedByCheck repo); [apply (frame_refl R frame)|].
  cbv zeta. generalize (newOctokit env (credential w)). intros octokit.
  revert w. apply steps_bind; [exact frame|now apply steps_await|].
  intros defaultBranch. apply steps_scanBranch; auto.
Qed.
End CacheWrites.

(** Neither function ever stores an entry whose data is [true]: an entry
    that is a rate-limit mark after the call was one before it. *)
Lemma no_rate_limit_mark_is_recorded
      (env : Env) (fuel : nat) (repo : string) (keywords : list string)
      (w : World) (k : string) (entry : CacheEntry) :
  (cache (snd (fetchIssues env fuel repo keywords w)) !! k = Some entry
   \/ cache (snd (fetchIssuesLocally env fuel repo keywords w)) !! k = Some entry) ->
  isTrue (data entry) = true ->
  cache w !! k = Some entry.
Proof.
  intros Hin Htrue.
  pose proof (steps_fetchIssues
                _ (storesOnlyResults_frame (cacheKeyOf repo keywords)) env repo
                keywords (storesOnlyResults_emit _)
                (storesOnlyResults_store _) fuel w k) as Hremote.
  pose proof (steps_fetchIssuesLocally
                _ (storesOnlyResults_frame (cacheKeyOf repo keywords)) env repo
                keywords (storesOnlyResults_emit _)
                (storesOnlyResults_store _) fuel w k) as Hlocal.
  destruct Hin as [Hin|Hin].
  - destruct Hremote as [<-|[_ (t & issues & Hstored)]]; [exact Hin|].
    rewrite Hin in Hstored. injection Hstored as ->. discriminate Htrue.
  - destruct Hlocal as [<-|[_ (t & issues & Hstored)]]; [exact Hin|].
    rewrite Hin in Hstored. injection Hstored as ->. discriminate Htrue.
Qed.

(** ** Rate limiting *)

(** The reading side exists: with a live rate-limit mark the call goes to
    the local search, and a failure there comes out as the rate-limit
    error. *)
Lemma known_rate_limit_goes_local
      (env : Env) (fuel : nat) (repo : string) (keywords : list string)
      (w : World) :
  knownRateLimited env w repo = true ->
  fetchIssues env fuel repo keywords w
  = match fetchIssuesLocally env fuel repo keywords w with
    | (Throw _, w') => (Throw rateLimitExceeded, w')
    | other => other
    end.
Proof. intros Hknown. rewrite fetchIssues_spec, Hknown. reflexivity. Qed.

(** C2, at a failing input. The API answers every request with status 403
    "API rate limit exceeded"; caching is on and the cache is empty. The
    call fails with that error and the cache stays empty: no entry is stored
    under [ratelimit-octo/demo]. The next call for the same repository sends
    the repository request again instead of turning to the local search. *)
Theorem rate_limit_failure_is_not_recorded :
  let first := fetchIssues Demo.exhaustedEnv 3 "octo/demo" ["TODO"] Demo.fresh in
  let second :=
    fetchIssues Demo.exhaustedEnv 3 "octo/demo" ["TODO"] (snd first) in
  fst first = Throw Demo.rateLimited
  /\ trace (snd first) = [ReposGet "octo" "demo"]
  /\ cache (snd first) !! rateLimitKeyOf "octo/demo" = None
  /\ knownRateLimited Demo.exhaustedEnv (snd first) "octo/demo" = false
  /\ fst second = Throw Demo.rateLimited
  /\ trace (snd second) = [ReposGet "octo" "demo"; ReposGet "octo" "demo"].
Proof. cbv zeta. repeat split; vm_compute; reflexivity. Qed.

(** ** Cache keys *)

Lemma bind_Return {A B} (m : Async A) (k : A -> Async B) (w w' : World) (b : B) :
  bind m k w = (Return b, w') ->
  exists a w0, m w = (Return a, w0) /\ k a w0 = (Return b, w').
Proof.
  unfold bind. destruct (m w) as [[a|e|] w0]; intros H; try discriminate H.
  exists a, w0. now split.
Qed.

Lemma storeAndReturn_cached (env : Env) (key : string) (results : list Issue)
      (w0 w' : World) (p : Payload) :
  storeAndReturn env key results w0 = (Return p, w') ->
  cacheEnabled (settings w') = true ->
  exists t, cache w' !! key = Some {| timestamp := t; data := p |}.
Proof.
  rewrite storeAndReturn_spec. intros H Henabled.
  injection H as <- <-.
  destruct (cacheEnabled (settings w0)) eqn:H0.
  - eexists. cbn [cache setCache]. apply lookup_insert_eq.
  - rewrite H0 in Henabled. discriminate Henabled.
Qed.

Lemma scanSnapshot_cached (env : Env) fuel octokit repo owner repoName keywords
      key repoDir defaultBranch (w w' : World) (p : Payload) :
  scanSnapshot env fuel octokit repo owner repoName keywords key repoDir
               defaultBranch w = (Return p, w') ->
  cacheEnabled (settings w') = true ->
  exists t, cache w' !! key = Some {| timestamp := t; data := p |}.
Proof.
  unfold scanSnapshot. intros H.
  apply bind_Return in H as (latestCommit & w1 & _ & H).
  apply bind_Return in H as (w1' & w2 & _ & H).
  apply bind_Return in H as (u & w3 & _ & H).
  apply bind_Return in H as (found & w4 & _ & H).
  exact (storeAndReturn_cached _ _ _ _ _ _ H).
Qed.

Lemma scanBranch_cached (env : Env) fuel octokit owner repoName keywords key
      defaultBranch (w w' : World) (p : Payload) :
  scanBranch env fuel octokit owner repoName keywords key defaultBranch w
  = (Return p, w') ->
  cacheEnabled (settings w') = true ->
  exists t, cache w' !! key = Some {| timestamp := t; data := p |}.
Proof.
  unfold scanBranch. intros H.
  apply bind_Return in H as (found & w1 & _ & H).
  apply bind_Return in H as (results & w2 & _ & H).
  exact (storeAndReturn_cached _ _ _ _ _ _ H).
Qed.

Lemma sameSettings_frame : Frame sameSettings.
Proof.
  split; unfold sameSettings; try reflexivity.
  intros w1 w2 w3 H12 H23. congruence.
Qed.

Lemma fetchIssuesLocally_settings env fuel repo keywords w :
  settings (snd (fetchIssuesLocally env fuel repo keywords w)) = settings w.
Proof.
  apply (steps_fetchIssuesLocally _ sameSettings_frame); reflexivity.
Qed.

Lemma fetchIssues_settings env fuel repo keywords w :
  settings (snd (fetchIssues env fuel repo keywords w)) = settings w.
Proof.
  apply (steps_fetchIssues _ sameSettings_frame); reflexivity.
Qed.

Lemma liveEntry_lookup env w key entry :
  liveEntry env w key = Some entry -> cache w !! key = Some entry.
Proof.
  unfold liveEntry. destruct (cacheEnabled _); [|discriminate].
  destruct (cache w !! key) as [e|]; [|discriminate].
  destruct (_ <? _); [|discriminate]. now intros [= ->].
Qed.

Lemma fetchIssuesLocally_cached env fuel repo keywords (w w' : World) (p : Payload) :
  cacheEnabled (settings w) = true ->
  fetchIssuesLocally env fuel repo keywords w = (Return p, w') ->
  exists entry,
    cache w' !! cacheKeyOf repo keywords = Some entry /\ data entry = p.
Proof.
  intros Henabled Hrun.
  assert (cacheEnabled (settings w') = true) as Henabled'.
  { replace w' with (snd (fetchIssuesLocally env fuel repo keywords w))
      by now rewrite Hrun.
    now rewrite fetchIssuesLocally_settings. }
  rewrite fetchIssuesLocally_spec in Hrun.
  destruct (rejectedByCheck repo); [discriminate Hrun|].
  destruct (liveEntry env w (cacheKeyOf repo keywords)) as [entry|] eqn:Hlive.
  - injection Hrun as <- <-. exists entry.
    split; [now apply (liveEntry_lookup env)|reflexivity].
  - unfold scanLocally in Hrun.
    apply bind_Return in Hrun as (w0 & w1 & _ & Hrun).
    apply bind_Return in Hrun as (u & w2 & _ & Hrun).
    apply bind_Return in Hrun as (defaultBranch & w3 & _ & Hrun).
    destruct (scanSnapshot_cached _ _ _ _ _ _ _ _ _ _ _ _ _ Hrun Henabled')
      as [t Hstored].
    eexists. split; [exact Hstored|reflexivity].
Qed.

Lemma fetchIssues_cached env fuel repo keywords (w w' : World) (p : Payload) :
  cacheEnabled (settings w) = true ->
  fetchIssues env fuel repo keywords w = (Return p, w') ->
  exists entry,
    cache w' !! cacheKeyOf repo keywords = Some entry /\ data entry = p.
Proof.
  intros Henabled Hrun.
  assert (cacheEnabled (settings w') = true) as Henabled'.
  { replace w' with (snd (fetchIssues env fuel repo keywords w))
      by now rewrite Hrun.
    now rewrite fetchIssues_settings. }
  rewrite fetchIssues_spec in Hrun.
  destruct (knownRateLimited env w repo).
  { apply (fetchIssuesLocally_cached env fuel repo keywords w w' p Henabled).
    unfold tryCatch, throw in Hrun.
    destruct (fetchIssuesLocally env fuel repo keywords w) as [[q|e|] w1];
      [exact Hrun|discriminate Hrun|discriminate Hrun]. }
  destruct (liveEntry env w (cacheKeyOf repo keywords)) as [entry|] eqn:Hlive.
  - injection Hrun as <- <-. exists entry.
    split; [now apply (liveEntry_lookup env)|reflexivity].
  - rewrite scanRemotely_spec in Hrun.
    destruct (rejectedByCheck repo); [discriminate Hrun|]. cbv zeta in Hrun.
    apply bind_Return in Hrun as (defaultBranch & w3 & _ & Hrun).
    destruct (scanBranch_cached _ _ _ _ _ _ _ _ _ _ _ Hrun Henabled')
      as [t Hstored].
    eexists. split; [exact Hstored|reflexivity].
Qed.

(** A live entry under the request's key is what both functions return. *)
Lemma live_entry_is_served env fuel repo keywords (w : World) (entry : CacheEntry) :
  rejectedByCheck repo = false ->
  liveEntry env w (cacheKeyOf repo keywords) = Some entry ->
  fetchIssuesLocally env fuel repo keywords w = (Return (data entry), w)
  /\ fetchIssues env fuel repo keywords w = (Return (data entry), w).
Proof.
  intros Hok Hlive.
  assert (fetchIssuesLocally env fuel repo keywords w = (Return (data entry), w))
    as Hlocal by (now rewrite fetchIssuesLocally_spec, Hok, Hlive).
  split; [exact Hlocal|].
  rewrite fetchIssues_spec, Hlive.
  destruct (knownRateLimited env w repo); [|reflexivity].
  unfold tryCatch. now rewrite Hlocal.
Qed.

(** C3, as the code has it. The result-cache key is the repository
    identifier, a hyphen and the keywords joined by commas in the order they
    are given; nothing sorts them. A result that either function returned is
    in the cache under that key, and while that entry has not expired a
    later request with the same identifier and the same keywords in the same
    order is answered with it, by either function, without any request. *)
Theorem same_keyword_list_is_served_from_cache
        (env env2 : Env) (fuel fuel2 : nat) (repo : string)
        (keywords : list string) (w w' : World) (p : Payload) :
  cacheEnabled (settings w) = true ->
  rejectedByCheck repo = false ->
  (fetchIssues env fuel repo keywords w = (Return p, w')
   \/ fetchIssuesLocally env fuel repo keywords w = (Return p, w')) ->
  (forall entry,
      cache w' !! cacheKeyOf repo keywords = Some entry ->
      Date_now env2 (trace w') - timestamp entry
      < cacheExpiry (settings w') * 60000) ->
  cacheKeyOf repo keywords = repo +:+ "-" +:+ Js.join "," keywords
  /\ fetchIssues env2 fuel2 repo keywords w' = (Return p, w')
  /\ fetchIssuesLocally env2 fuel2 repo keywords w' = (Return p, w').
Proof.
  intros Henabled Hok Hrun Hfresh. split; [reflexivity|].
  assert (exists entry,
             cache w' !! cacheKeyOf repo keywords = Some entry
             /\ data entry = p) as (entry & Hstored & <-).
  { destruct Hrun as [Hrun|Hrun];
      [exact (fetchIssues_cached _ _ _ _ _ _ _ Henabled Hrun)
      |exact (fetchIssuesLocally_cached _ _ _ _ _ _ _ Henabled Hrun)]. }
  assert (settings w' = settings w) as Hsettings.
  { destruct Hrun as [Hrun|Hrun].
    - replace w' with (snd (fetchIssues env fuel repo keywords w))
        by now rewrite Hrun.
      apply fetchIssues_settings.
    - replace w' with (snd (fetchIssuesLocally env fuel repo keywords w))
        by now rewrite Hrun.
      apply fetchIssuesLocally_settings. }
  assert (liveEntry env2 w' (cacheKeyOf repo keywords) = Some entry) as Hlive.
  { unfold liveEntry, expiryTime. rewrite Hsettings, Henabled, Hstored.
    specialize (Hfresh entry Hstored). rewrite Hsettings in Hfresh.
    destruct (Z.ltb_spec (Date_now env2 (trace w') - timestamp entry)
                         (cacheExpiry (settings w) * 60 * 1000));
      [reflexivity|lia]. }
  destruct (live_entry_is_served env2 fuel2 repo keywords w' entry Hok Hlive)
    as [Hlocal Hremote].
  now split.
Qed.

Lemma same_keyword_list_is_served_from_cache_witness :
  fetchIssues Demo.env 0 "octo/demo" ["TODO"; "FIXME"] Demo.afterRemote
  = (Return Demo.found, Demo.afterRemote)
  /\ fetchIssuesLocally Demo.env 0 "octo/demo" ["TODO"; "FIXME"] Demo.afterRemote
     = (Return Demo.found, Demo.afterRemote).
Proof.
  refine (proj2 (same_keyword_list_is_served_from_cache
                   Demo.env Demo.env 3 0 "octo/demo" ["TODO"; "FIXME"]
                   Demo.fresh Demo.afterRemote Demo.found eq_refl eq_refl _ _)).
  - left. vm_compute. reflexivity.
  - intros entry Hentry. vm_compute in Hentry.
    injection Hentry as <-. vm_compute. reflexivity.
Defined.

(** C3 as stated fails: [TODO FIXME] and [FIXME TODO] are permutations of
    one another, their keys differ, and the result cached under the first
    order is not used for the second: the request goes to the API again. *)
Lemma permuted_keywords_miss_the_cache :
  Permutation ["TODO"; "FIXME"] ["FIXME"; "TODO"]
  /\ cacheKeyOf "octo/demo" ["TODO"; "FIXME"] = "octo/demo-TODO,FIXME"
  /\ cacheKeyOf "octo/demo" ["FIXME"; "TODO"] = "octo/demo-FIXME,TODO"
  /\ cacheKeyOf "octo/demo" ["TODO"; "FIXME"]
     <> cacheKeyOf "octo/demo" ["FIXME"; "TODO"]
  /\ fst (fetchIssues Demo.env 3 "octo/demo" ["TODO"; "FIXME"] Demo.fresh)
     = Return Demo.found
  /\ liveEntry Demo.env Demo.afterRemote
               (cacheKeyOf "octo/demo" ["FIXME"; "TODO"]) = None
  /\ trace (snd (fetchIssues Demo.env 3 "octo/demo" ["FIXME"; "TODO"]
                             Demo.afterRemote))
     = (trace Demo.afterRemote
        ++ [ReposGet "octo" "demo"; ReposGetContent "octo" "demo" "" "main";
            ReposGetContent "octo" "demo" "src" "main";
            ReposGetContent "octo" "demo" "src/a.py" "main"])%list.
Proof.
  split; [apply perm_swap|].
  repeat split; try (vm_compute; reflexivity).
  vm_compute. discriminate.
Qed.

(** ** Keywords of the code block *)

Lemma lacks_includes (c : ascii) (s : string) :
  lacks c s -> Js.includes s (String c EmptyString) = false.
Proof.
  induction s as [|a s IH]; [reflexivity|]. intros [Hne Hs]. cbn.
  destruct (ascii_dec c a) as [->|_]; [contradiction|]. now apply IH.
Qed.

Lemma lacks_trimStart c s : lacks c s -> lacks c (Js.trimStart s).
Proof.
  induction s as [|a s IH]; [trivial|]. intros [Hne Hs]. cbn.
  destruct (Js.isWhiteSpace a); [now apply IH|now split].
Qed.

Lemma lacks_trimEnd c s : lacks c s -> lacks c (Js.trimEnd s).
Proof.
  induction s as [|a s IH]; [trivial|]. intros [Hne Hs]. cbn.
  destruct (_ && _); [exact I|]. split; [exact Hne|now apply IH].
Qed.

Lemma lacks_trim c s : lacks c s -> lacks c (Js.trim s).
Proof. intros H. now apply lacks_trimEnd, lacks_trimStart. Qed.

Lemma lacks_consHead c a pieces :
  a <> c -> Forall (lacks c) pieces -> Forall (lacks c) (Js.consHead a pieces).
Proof.
  intros Hne Hall. destruct Hall as [|p ps Hp Hps]; cbn.
  - constructor; [now split|constructor].
  - constructor; [now split|exact Hps].
Qed.

Lemma lacks_splitWhiteSpaceFrom c s : forall inGap,
  lacks c s -> Forall (lacks c) (Js.splitWhiteSpaceFrom inGap s).
Proof.
  induction s as [|a s IH]; intros inGap Hs; cbn.
  - constructor; [exact I|constructor].
  - destruct Hs as [Hne Hs]. destruct (Js.isWhiteSpace a).
    + destruct inGap; [now apply IH|]. constructor; [exact I|now apply IH].
    + apply lacks_consHead; [exact Hne|now apply IH].
Qed.

(** The piece before the first separator does not contain it. *)
Lemma lacks_split_head c s : lacks c (default "" (Js.split c s !! 0%nat)).
Proof.
  induction s as [|a s IH]; cbn; [exact I|].
  destruct (Ascii.eqb_spec a c) as [->|Hne]; cbn; [exact I|].
  destruct (Js.split c s) as [|p ps]; cbn in *; now split.
Qed.

(** In the API-only variant the comment is cut off before the keywords are
    split: no keyword of a [keywords:] line contains [#]. *)
Lemma api_only_keywords_stop_at_comment (b : Block) (ln : string) :
  Js.startsWith ln "keywords:" = true ->
  Forall (fun keyword => Js.includes keyword "#" = false)
         (keywords (ApiOnly.parseLine b ln)).
Proof.
  intros Hkw. unfold ApiOnly.parseLine.
  destruct (Js.startsWith ln "repo:") eqn:Hrepo.
  { destruct ln as [|a ln]; [discriminate Hkw|].
    unfold Js.startsWith in Hkw, Hrepo. cbn [String.prefix] in Hkw, Hrepo.
    destruct (ascii_dec "r" a) as [<-|]; [|discriminate Hrepo].
    destruct (ascii_dec "k" "r") as [Heq|]; [discriminate Heq|discriminate Hkw]. }
  rewrite Hkw. cbn [keywords].
  eapply List.Forall_impl; [intros k Hk; apply lacks_includes; exact Hk|].
  apply lacks_splitWhiteSpaceFrom, lacks_trim, lacks_split_head.
Qed.

(** C4, at a failing input: the block of the README of the variant with the
    local search. Its processor keeps [#] and the words of the comment as
    keywords; the API-only variant, on the same block, stops at the [#]. *)
Theorem trailing_comment_becomes_keywords :
  let source :=
    "repo: owner/repo-name" +:+ Js.newline
    +:+ "keywords: TODO FIXME BUG # optional, defaults to TODO FIXME" in
  keywords (parseBlock ["TODO"; "FIXME"] source)
  = ["TODO"; "FIXME"; "BUG"; "#"; "optional,"; "defaults"; "to"; "TODO"; "FIXME"]
  /\ keywords (ApiOnly.parseBlock ["TODO"; "FIXME"] source)
     = ["TODO"; "FIXME"; "BUG"].
Proof. split; vm_compute; reflexivity. Qed.


(** * Further properties of the code *)

(** ** Line numbers and order of the reported issues *)

Section ScanOrder.
Variables (owner repoName defaultBranch filePath : string).
Variable keywords : list string.

Lemma localLineLoop_bounds (lines : list string) : forall j,
  Forall (fun m => (S j <= line m <= j + length lines)%nat)
         (localLineLoop owner repoName defaultBranch filePath keywords j lines).
Proof.
  induction lines as [|ln following IH]; intros j; cbn [localLineLoop];
    [constructor|].
  apply Forall_app. split.
  - rewrite localKeywordLoop_as_repeat. apply List.Forall_forall.
    intros m Hm. apply repeat_spec in Hm. subst m. cbn. lia.
  - eapply List.Forall_impl; [|apply (IH (S j))].
    intros m Hm. cbn beta in Hm. cbn [length]. lia.
Qed.

Lemma remoteLineLoop_bounds (lines : list string) : forall j,
  Forall (fun m => (S j <= line m <= j + length lines)%nat)
         (remoteLineLoop owner repoName defaultBranch filePath keywords j lines).
Proof.
  induction lines as [|ln following IH]; intros j; cbn [remoteLineLoop];
    [constructor|].
  apply Forall_app. split.
  - rewrite remoteKeywordLoop_repeat. apply List.Forall_forall.
    intros m Hm. apply repeat_spec in Hm. subst m. cbn. lia.
  - eapply List.Forall_impl; [|apply (IH (S j))].
    intros m Hm. cbn beta in Hm. cbn [length]. lia.
Qed.

(** X1. Every issue of either scan carries a line number between 1 and the
    number of lines of the scanned text. *)
Theorem issue_line_numbers_in_range (text : string) :
  let count := length (Js.split (ascii_of_nat 10) text) in
  Forall (fun m => (1 <= line m <= count)%nat)
         (scanLocalContent owner repoName defaultBranch filePath keywords text)
  /\ Forall (fun m => (1 <= line m <= count)%nat)
            (scanRemoteContent owner repoName defaultBranch filePath keywords
                               text).
Proof.
  cbv zeta. split.
  - exact (localLineLoop_bounds _ 0%nat).
  - exact (remoteLineLoop_bounds _ 0%nat).
Qed.

Lemma repeat_sorted {A} (R : A -> A -> Prop) (x : A) (k : nat) :
  R x x -> StronglySorted R (repeat x k).
Proof.
  intros Hx. induction k as [|k IH]; cbn; constructor; [exact IH|].
  apply List.Forall_forall. intros y Hy. apply repeat_spec in Hy. now subst y.
Qed.

Lemma localLineLoop_increasing (lines : list string) : forall j,
  StronglySorted (fun a b => (line a < line b)%nat)
    (localLineLoop owner repoName defaultBranch filePath keywords j lines).
Proof.
  induction lines as [|ln following IH]; intros j; cbn [localLineLoop];
    [constructor|].
  apply StronglySorted_app_2; [| |apply IH].
  - intros a b Ha Hb. rewrite localKeywordLoop_as_repeat in Ha.
    apply list_elem_of_In, repeat_spec in Ha. subst a. cbn [line issueAt].
    pose proof (localLineLoop_bounds following (S j)) as Hbounds.
    rewrite List.Forall_forall in Hbounds. apply list_elem_of_In in Hb. specialize (Hbounds b Hb). lia.
  - rewrite localKeywordLoop_first. destruct (existsb _ _); repeat constructor.
Qed.

Lemma remoteLineLoop_ordered (lines : list string) : forall j,
  StronglySorted (fun a b => (line a <= line b)%nat)
    (remoteLineLoop owner repoName defaultBranch filePath keywords j lines).
Proof.
  induction lines as [|ln following IH]; intros j; cbn [remoteLineLoop];
    [constructor|].
  apply StronglySorted_app_2; [| |apply IH].
  - intros a b Ha Hb. rewrite remoteKeywordLoop_repeat in Ha.
    apply list_elem_of_In, repeat_spec in Ha. subst a. cbn [line issueAt].
    pose proof (remoteLineLoop_bounds following (S j)) as Hbounds.
    rewrite List.Forall_forall in Hbounds. apply list_elem_of_In in Hb. specialize (Hbounds b Hb). lia.
  - rewrite remoteKeywordLoop_repeat. apply repeat_sorted. lia.
Qed.

(** X2. The issues of a file come in the order of its lines: line numbers
    strictly increase in the local scan (so no line is reported twice) and
    never decrease in the remote scan. *)
Theorem issues_follow_line_order (text : string) :
  StronglySorted (fun a b => (line a < line b)%nat)
    (scanLocalContent owner repoName defaultBranch filePath keywords text)
  /\ StronglySorted (fun a b => (line a <= line b)%nat)
       (scanRemoteContent owner repoName defaultBranch filePath keywords text).
Proof.
  split; [apply localLineLoop_increasing|apply remoteLineLoop_ordered].
Qed.
End ScanOrder.

(** ** The local test is broader than the remote one *)

Lemma prefix_app_true (a b s : string) :
  String.prefix (a +:+ b) s = true -> String.prefix a s = true.
Proof.
  revert s. induction a as [|c a IH]; intros s H; [now destruct s|].
  destruct s as [|d s]; [discriminate H|].
  change (String c a +:+ b) with (String c (a +:+ b)) in H.
  cbn [String.prefix] in *.
  destruct (ascii_dec c d); [apply IH; exact H|discriminate H].
Qed.

Lemma prefix_toLowerCase (a s : string) :
  String.prefix a s = true ->
  String.prefix (Js.toLowerCase a) (Js.toLowerCase s) = true.
Proof.
  revert s. induction a as [|c a IH]; intros s H; [now destruct s|].
  destruct s as [|d s]; [discriminate H|].
  cbn [String.prefix Js.toLowerCase] in *.
  destruct (ascii_dec c d) as [->|]; [|discriminate H].
  destruct (ascii_dec (Js.toLowerChar d) (Js.toLowerChar d));
    [now apply IH|contradiction].
Qed.

Lemma includes_app_true (s a b : string) :
  Js.includes s (a +:+ b) = true -> Js.includes s a = true.
Proof.
  induction s as [|c s IH]; cbn [Js.includes]; intros H.
  - destruct (String.prefix (a +:+ b) "") eqn:Hp; [|discriminate H].
    now rewrite (prefix_app_true _ _ _ Hp).
  - destruct (String.prefix (a +:+ b) (String c s)) eqn:Hp.
    + now rewrite (prefix_app_true _ _ _ Hp).
    + destruct (String.prefix a (String c s)); [reflexivity|now apply IH].
Qed.

Lemma includes_toLowerCase (s a : string) :
  Js.includes s a = true ->
  Js.includes (Js.toLowerCase s) (Js.toLowerCase a) = true.
Proof.
  induction s as [|c s IH]; cbn [Js.includes Js.toLowerCase]; intros H.
  - destruct (String.prefix a "") eqn:Hp; [|discriminate H].
    apply prefix_toLowerCase in Hp. cbn [Js.toLowerCase] in Hp. now rewrite Hp.
  - destruct (String.prefix a (String c s)) eqn:Hp.
    + apply prefix_toLowerCase in Hp. cbn [Js.toLowerCase] in Hp.
      now rewrite Hp.
    + destruct (String.prefix (Js.toLowerCase a) _);
        [reflexivity|apply IH; exact H].
Qed.

Lemma remoteTest_localTest (ln keyword : string) :
  remoteTest ln keyword = true -> localTest ln keyword = true.
Proof.
  unfold remoteTest, localTest. intros H.
  now apply includes_toLowerCase, (includes_app_true _ _ ":").
Qed.

Lemma remoteKeywordLoop_incl (found : Issue) (ln : string) (ks : list string) :
  incl (remoteKeywordLoop found ln ks) (localKeywordLoop found ln ks).
Proof.
  intros m Hm. rewrite remoteKeywordLoop_repeat in Hm.
  rewrite localKeywordLoop_first.
  assert (existsb (localTest ln) ks = true) as ->.
  { destruct (List.filter (remoteTest ln) ks) as [|k rest] eqn:Hf;
      [destruct Hm|].
    assert (In k (List.filter (remoteTest ln) ks)) as Hk
        by (rewrite Hf; now left).
    apply List.filter_In in Hk as [Hin Hk].
    apply existsb_exists. exists k. split; [exact Hin|].
    now apply remoteTest_localTest. }
  apply repeat_spec in Hm. subst m. now left.
Qed.

(** X3. On Latin-1 text and keywords (the strings of this embedding, on
    which [toLowerCase] maps code unit by code unit), whatever the remote
    scan reports for a text, the local scan of the same text reports too, as
    the same record: a line containing [K:] also contains [K] whatever the
    case. Outside Latin-1 this need not hold (a final sigma is lowered
    differently within a line and within a keyword). *)
Theorem remote_issues_are_local_issues
        (owner repoName defaultBranch filePath : string)
        (keywords : list string) (text : string) :
  incl (scanRemoteContent owner repoName defaultBranch filePath keywords text)
       (scanLocalContent owner repoName defaultBranch filePath keywords text).
Proof.
  unfold scanRemoteContent, scanLocalContent.
  generalize (Js.split (ascii_of_nat 10) text). intros lines.
  generalize 0%nat.
  induction lines as [|ln following IH]; intros j m Hm; [now cbn in Hm|].
  cbn [remoteLineLoop localLineLoop] in *.
  apply in_app_or in Hm as [Hm|Hm]; apply in_or_app.
  - left. now apply remoteKeywordLoop_incl.
  - right. now apply IH.
Qed.

(** ** The empty keyword *)

Lemma includes_empty (s : string) : Js.includes s "" = true.
Proof. now destruct s. Qed.

Lemma empty_keyword_matches_every_line
      (owner repoName defaultBranch filePath : string)
      (keywords : list string) (lines : list string) :
  In "" keywords ->
  forall j,
    length (localLineLoop owner repoName defaultBranch filePath keywords j lines)
    = length lines.
Proof.
  intros Hempty. induction lines as [|ln following IH]; intros j;
    [reflexivity|].
  cbn [localLineLoop]. rewrite length_app, IH, localKeywordLoop_first.
  assert (existsb (localTest ln) keywords = true) as ->; [|reflexivity].
  apply existsb_exists. exists "". split; [exact Hempty|].
  unfold localTest. apply includes_empty.
Qed.

Lemma keywords_line_is_not_repo_line (ln : string) :
  Js.startsWith ln "keywords:" = true -> Js.startsWith ln "repo:" = false.
Proof.
  intros Hkw. destruct ln as [|a ln]; [discriminate Hkw|].
  unfold Js.startsWith in *. cbn [String.prefix] in *.
  destruct (ascii_dec "r" a) as [<-|]; [|reflexivity].
  destruct (ascii_dec "k" "r") as [Heq|]; [discriminate Heq|discriminate Hkw].
Qed.

(** X4. A [keywords:] line with nothing but white space after the colon
    sets the keyword list to the single empty keyword, and with it the local
    scan reports every line of every text it scans. *)
Theorem blank_keywords_line_reports_every_line
        (b : Block) (ln : string)
        (owner repoName defaultBranch filePath text : string) :
  Js.startsWith ln "keywords:" = true ->
  Js.trim (Js.substring (String.length "keywords:") ln) = "" ->
  keywords (parseLine b ln) = [""]
  /\ length (scanLocalContent owner repoName defaultBranch filePath
                              (keywords (parseLine b ln)) text)
     = length (Js.split (ascii_of_nat 10) text).
Proof.
  intros Hkw Hblank.
  assert (keywords (parseLine b ln) = [""]) as Hparsed.
  { unfold parseLine.
    rewrite (keywords_line_is_not_repo_line _ Hkw), Hkw. cbn [keywords].
    now rewrite Hblank. }
  split; [exact Hparsed|]. rewrite Hparsed.
  apply empty_keyword_matches_every_line. now left.
Qed.

Lemma blank_keywords_line_reports_every_line_witness :
  keywords (parseLine {| repo := "octo/demo"; keywords := ["TODO"];
                         forceApi := false |} "keywords:   ") = [""]
  /\ length (scanLocalContent "octo" "demo" "main" "src/a.py"
               (keywords (parseLine {| repo := "octo/demo"; keywords := ["TODO"];
                                       forceApi := false |} "keywords:   "))
               Demo.text) = 3%nat.
Proof.
  exact (blank_keywords_line_reports_every_line
           {| repo := "octo/demo"; keywords := ["TODO"]; forceApi := false |}
           "keywords:   " "octo" "demo" "main" "src/a.py" Demo.text
           eq_refl eq_refl).
Defined.


(** ** What a download leaves behind *)

Lemma downloadFile_unfold (env : Env) (fuel : nat) (url destination : string)
      (w : World) :
  downloadFile env fuel url destination w
  = let w1 := emit (HttpsGet url)
                   (setFiles (<[destination := []]> (files w)) w) in
    match https_get env url (credential w) with
    | Thrown err => throw err w1
    | EarlyError err =>
        (unlink destination ;;;
         modify (fun w' => setFiles (<[destination := []]> (files w')) w') ;;;
         throw err) w1
    | RequestError err => (unlink destination ;;; throw err) w1
    | Unfinished received =>
        (OutOfFuel, setFiles (<[destination := received]> (files w1)) w1)
    | Response statusCode statusMessage location body =>
        if ((statusCode =? 302) || (statusCode =? 301)) && Js.truthy location
        then
          match fuel with
          | O => (OutOfFuel, w1)
          | S fuel' => downloadFile env fuel' (default "" location) destination w1
          end
        else if negb (statusCode =? 200) then
          (unlink destination ;;;
           throw (Error ("Failed to download file: " +:+ showZ statusCode
                         +:+ " " +:+ statusMessage))) w1
        else
          validateDownload destination
            (setFiles (<[destination := body]> (files w1)) w1)
    end.
Proof. destruct fuel; reflexivity. Qed.

(** What a download that has ended leaves at the destination; for a
    rejection, [last] is the address requested last. *)
Lemma downloadFile_outcome (env : Env) (destination : string) (fuel : nat) :
  forall url w,
    match downloadFile env fuel url destination w with
    | (Return _, w') =>
        exists body,
          files w' !! destination = Some body /\ firstn 4 body = zipSignature
    | (Throw _, w') =>
        exists earlier last,
          trace w' = (trace w ++ map HttpsGet (earlier ++ [last]))%list
          /\ files w' !! destination
             = if leavesFile (https_get env last (credential w))
               then Some [] else None
    | (OutOfFuel, _) => True
    end.
Proof.
  induction fuel as [|fuel IH]; intros url w; rewrite downloadFile_unfold;
    cbv zeta;
    (destruct (https_get env url (credential w))
       as [statusCode statusMessage location body|err|err|err|received]
            eqn:Hget;
     [|run; exists [], url; rewrite Hget; cbn; split;
       [reflexivity|first [apply lookup_delete_eq|apply lookup_insert_eq]]..
      |exact I]);
    (destruct (((statusCode =? 302) || (statusCode =? 301))
               && Js.truthy location);
     [|destruct (negb (statusCode =? 200));
       [run; exists [], url; rewrite Hget; cbn; split;
        [reflexivity|apply lookup_delete_eq]|
        rewrite (validateDownload_spec _ _ body) by apply lookup_insert_eq;
        destruct (missingSignature (readHeader body)) eqn:Hsig;
        [exists [], url; rewrite Hget; cbn; split;
         [reflexivity|apply lookup_delete_eq]|
         exists body; split; [apply lookup_insert_eq|now apply signature_check]]]]).
  - exact I.
  - specialize (IH (default "" location)
                   (emit (HttpsGet url)
                         (setFiles (<[destination := []]> (files w)) w))).
    destruct (downloadFile env fuel (default "" location) destination _)
      as [[[]|e|] w']; [exact IH| |exact I].
    destruct IH as (earlier & last & Htrace & Hfile).
    exists (url :: earlier), last. split; [|exact Hfile].
    rewrite Htrace. cbn. now rewrite <- app_assoc.
Qed.

(** X5. When a download rejects, the request made last decides what is
    left at the destination. Nothing is left if that request was answered
    (status other than 200, redirect without address, body without the
    signature) or failed once the file existed; an empty file is left if
    [https.get] threw, as it does for a redirect to a relative address, or
    failed before the write stream had created the file. *)
Theorem failed_download_destination
        (env : Env) (fuel : nat) (url destination : string) (w w' : World)
        (e : JsError) :
  downloadFile env fuel url destination w = (Throw e, w') ->
  exists earlier last,
    trace w' = (trace w ++ map HttpsGet (earlier ++ [last]))%list
    /\ files w' !! destination
       = if leavesFile (https_get env last (credential w))
         then Some [] else None.
Proof.
  intros Hrun. pose proof (downloadFile_outcome env destination fuel url w) as H.
  now rewrite Hrun in H.
Qed.

Lemma failed_download_destination_witness :
  exists earlier last,
    trace (snd (downloadFile Fixtures.relativeRedirectEnv 1
                  "https://github.com/octo/demo/archive/main.zip"
                  "/tmp/octo-demo/demo-main.zip" Demo.fresh))
    = (trace Demo.fresh ++ map HttpsGet (earlier ++ [last]))%list
    /\ files (snd (downloadFile Fixtures.relativeRedirectEnv 1
                     "https://github.com/octo/demo/archive/main.zip"
                     "/tmp/octo-demo/demo-main.zip" Demo.fresh))
       !! "/tmp/octo-demo/demo-main.zip"
       = if leavesFile (https_get Fixtures.relativeRedirectEnv last
                                  (credential Demo.fresh))
         then Some [] else None.
Proof.
  apply (failed_download_destination
           Fixtures.relativeRedirectEnv 1
           "https://github.com/octo/demo/archive/main.zip"
           "/tmp/octo-demo/demo-main.zip" Demo.fresh _ (Error "Invalid URL")).
  vm_compute. reflexivity.
Defined.

(** X6. When a download resolves, the destination holds a file that begins
    with the ZIP signature. *)
Theorem resolved_download_leaves_signed_file
        (env : Env) (fuel : nat) (url destination : string) (w w' : World) :
  downloadFile env fuel url destination w = (Return tt, w') ->
  exists body,
    files w' !! destination = Some body /\ firstn 4 body = zipSignature.
Proof.
  intros Hrun. pose proof (downloadFile_outcome env destination fuel url w) as H.
  now rewrite Hrun in H.
Qed.

Lemma resolved_download_leaves_signed_file_witness :
  exists body,
    files (snd (downloadFile Fixtures.redirectingEnv 1
                  "https://github.com/octo/demo/archive/main.zip"
                  "/tmp/octo-demo/demo-main.zip" Demo.fresh))
    !! "/tmp/octo-demo/demo-main.zip" = Some body
    /\ firstn 4 body = zipSignature.
Proof.
  apply (resolved_download_leaves_signed_file
           Fixtures.redirectingEnv 1
           "https://github.com/octo/demo/archive/main.zip"
           "/tmp/octo-demo/demo-main.zip" Demo.fresh).
  vm_compute. reflexivity.
Defined.

(** ** Redirects *)

Lemma truthy_Some (s : string) : s <> "" -> Js.truthy (Some s) = true.
Proof.
  intros Hne. cbn. destruct (String.eqb_spec s ""); [contradiction|reflexivity].
Qed.

(** X7. Redirects are followed to any depth: when the address leads through
    a chain of 301/302 answers to a 200 answer whose body begins with the
    signature, the download resolves (a budget of one unit per redirect is
    enough), having requested every address of the chain in order, and the
    destination holds the last body. *)
Theorem redirects_are_followed
        (env : Env) (destination : string) (body : list Byte.byte)
        (hops : list string) :
  forall (fuel : nat) (url : string) (w : World),
    redirectsTo env (credential w) url hops body ->
    firstn 4 body = zipSignature ->
    (length hops <= fuel)%nat ->
    let result := downloadFile env fuel url destination w in
    fst result = Return tt
    /\ trace (snd result) = (trace w ++ map HttpsGet (url :: hops))%list
    /\ files (snd result) !! destination = Some body.
Proof.
  induction hops as [|next rest IH]; intros fuel url w Hchain Hsig Hfuel;
    cbv zeta.
  - destruct Hchain as (statusMessage & location & Hget).
    rewrite (downloadFile_200 _ _ _ _ _ _ _ _ Hget).
    rewrite (validateDownload_spec _ _ body) by apply lookup_insert_eq.
    apply signature_check in Hsig. rewrite Hsig. cbn.
    repeat split. apply lookup_insert_eq.
  - destruct Hchain as [(code & msg & sent & Hcode & Hnext & Hget) Hrest].
    destruct fuel as [|fuel]; [cbn in Hfuel; lia|].
    rewrite downloadFile_unfold. cbv zeta. rewrite Hget.
    assert (((code =? 302) || (code =? 301)) && Js.truthy (Some next) = true)
      as ->.
    { rewrite (truthy_Some _ Hnext). destruct Hcode as [-> | ->]; reflexivity. }
    change (default "" (Some next)) with next. cbv beta iota.
    specialize (IH fuel next
                   (emit (HttpsGet url)
                         (setFiles (<[destination := []]> (files w)) w))
                   Hrest Hsig ltac:(cbn in Hfuel; lia)).
    cbv zeta in IH. destruct IH as (Hout & Htrace & Hfile).
    repeat split; [exact Hout| |exact Hfile].
    rewrite Htrace. cbn [trace emit setFiles map]. now rewrite <- app_assoc.
Qed.

Lemma redirects_are_followed_witness :
  let result :=
    downloadFile Fixtures.redirectingEnv 1
                 "https://github.com/octo/demo/archive/main.zip"
                 "/tmp/octo-demo/demo-main.zip" Demo.fresh in
  fst result = Return tt
  /\ trace (snd result)
     = [HttpsGet "https://github.com/octo/demo/archive/main.zip";
        HttpsGet "https://codeload.github.com/octo/demo/zip/main"]
  /\ files (snd result) !! "/tmp/octo-demo/demo-main.zip" = Some Demo.archive.
Proof.
  apply (redirects_are_followed
           Fixtures.redirectingEnv "/tmp/octo-demo/demo-main.zip" Demo.archive
           ["https://codeload.github.com/octo/demo/zip/main"] 1
           "https://github.com/octo/demo/archive/main.zip" Demo.fresh).
  - split.
    + exists 302, "Found", []. repeat split; [now right|discriminate].
    + exists "OK", None. reflexivity.
  - reflexivity.
  - cbn. lia.
Defined.

(** ** Invariants along a run

    Rules for relations between the world before and the world after that
    need not hold across every update: each rule names the updates the code
    in question performs. *)

Section Along.
Variable R : World -> World -> Prop.
Hypothesis R_refl : forall w, R w w.
Hypothesis R_trans : forall w1 w2 w3, R w1 w2 -> R w2 w3 -> R w1 w3.

Lemma along_ret {A} (a : A) : steps R (ret a).
Proof. intros w. apply R_refl. Qed.

Lemma along_throw {A} (e : JsError) : steps R (@throw A e).
Proof. intros w. apply R_refl. Qed.

Lemma along_getWorld : steps R getWorld.
Proof. intros w. apply R_refl. Qed.

Lemma along_bind {A B} (m : Async A) (k : A -> Async B) :
  steps R m -> (forall a, steps R (k a)) -> steps R (bind m k).
Proof.
  intros Hm Hk w. unfold bind. specialize (Hm w).
  destruct (m w) as [[a|e|] w']; cbn [snd] in *; try exact Hm.
  eapply R_trans; [exact Hm|apply Hk].
Qed.

Lemma along_tryCatch {A} (m : Async A) (handler : JsError -> Async A) :
  steps R m -> (forall e, steps R (handler e)) -> steps R (tryCatch m handler).
Proof.
  intros Hm Hh w. unfold tryCatch. specialize (Hm w).
  destruct (m w) as [[a|e|] w']; cbn [snd] in *; try exact Hm.
  eapply R_trans; [exact Hm|apply Hh].
Qed.

Lemma along_when (c : bool) (m : Async unit) : steps R m -> steps R (when c m).
Proof. intros Hm. destruct c; [exact Hm|apply along_ret]. Qed.

Variable env : Env.

Lemma along_dateNow : steps R (dateNow env).
Proof. intros w. apply R_refl. Qed.

Lemma along_readTree (searchDir : string) : steps R (readTree env searchDir).
Proof.
  unfold readTree. apply along_bind; [apply along_getWorld|]. intros w.
  destruct (dirs w !! searchDir); [apply along_ret|apply along_throw].
Qed.

(** *** Code that writes one file *)

Section OneFile.
Variable destination : string.
Hypothesis write :
  forall bytes w, R w (setFiles (<[destination := bytes]> (files w)) w).
Hypothesis remove :
  forall w, R w (setFiles (delete destination (files w)) w).
Hypothesis emitGet : forall url w, R w (emit (HttpsGet url) w).

Lemma along_unlink : steps R (unlink destination).
Proof. intros w. apply remove. Qed.

Lemma along_validateDownload : steps R (validateDownload destination).
Proof.
  unfold validateDownload. apply along_tryCatch.
  - apply along_bind; [apply along_getWorld|]. intros w.
    destruct (files w !! destination); [|apply along_throw].
    destruct (missingSignature _); [apply along_throw|apply along_ret].
  - intros e. apply along_bind; [apply along_unlink|].
    intros _. apply along_throw.
Qed.

Lemma along_downloadFile (fuel : nat) :
  forall url, steps R (downloadFile env fuel url destination).
Proof.
  assert (forall url w,
             R w (emit (HttpsGet url)
                       (setFiles (<[destination := []]> (files w)) w)))
    as Hstart.
  { intros url w. eapply R_trans; [apply write|apply emitGet]. }
  assert (forall err, steps R (unlink destination ;;; @throw unit err))
    as Hfail.
  { intros err. apply along_bind; [apply along_unlink|].
    intros _. apply along_throw. }
  induction fuel as [|fuel IH]; intros url w; rewrite downloadFile_unfold;
    cbv zeta;
    (eapply R_trans; [apply Hstart|]);
    (destruct (https_get env url (credential w))
      as [statusCode statusMessage location body|err|err|err|received];
     [|apply Hfail
      |apply along_bind; [apply along_unlink|];
       intros _; apply along_bind; [intros w'; apply write|];
       intros _; apply along_throw
      |apply along_throw
      |apply write]);
    (destruct (((statusCode =? 302) || (statusCode =? 301))
               && Js.truthy location);
     [|destruct (negb (statusCode =? 200));
       [apply Hfail|
        eapply R_trans; [apply write|apply along_validateDownload]]]).
  - apply R_refl.
  - apply IH.
Qed.
End OneFile.

(** *** Extraction and the snapshot record *)

Section Snapshot.
Variable repo : string.
Hypothesis write : forall p bytes w, R w (setFiles (<[p := bytes]> (files w)) w).
Hypothesis remove : forall p w, R w (setFiles (delete p (files w)) w).
Hypothesis setAnyDirs : forall d w, R w (setDirs d w).
Hypothesis emitLocal :
  forall ev w, isDownloadOrExtraction ev = true -> R w (emit ev w).
Hypothesis record :
  forall known w, R w (setRepoCache (<[repo := known]> (repoCache w)) w).

Lemma along_extractZip (zipPath destPath : string) :
  steps R (extractZip env zipPath destPath).
Proof.
  unfold extractZip. apply along_bind; [apply along_getWorld|]. intros w.
  destruct (files w !! zipPath) as [bytes|]; [|apply along_throw].
  destruct (Z.of_nat (length bytes) <? 100); [apply along_throw|].
  apply along_tryCatch.
  - apply along_bind.
    + intros w0. unfold await.
      destruct (extractAllTo env bytes destPath (dirs w)); now apply emitLocal.
    + intros extracted w0. apply setAnyDirs.
  - intros e. destruct (Js.includes _ _); [apply along_throw|].
    destruct (Js.includes _ _); apply along_throw.
Qed.

Lemma along_refreshSnapshot fuel owner repoName defaultBranch commit repoDir :
  steps R (refreshSnapshot env fuel repo owner repoName defaultBranch commit
                           repoDir).
Proof.
  unfold refreshSnapshot. apply along_bind.
  { apply along_downloadFile; [apply write|apply remove|].
    intros url w. now apply emitLocal. }
  intros _. apply along_bind; [apply along_extractZip|].
  intros _. apply along_bind; [apply along_dateNow|].
  intros now w. apply record.
Qed.
End Snapshot.

(** *** The result cache *)

Section Store.
Variable cacheKey : string.
Hypothesis store :
  forall t results w,
    cacheEnabled (settings w) = true ->
    R w (setCache (<[cacheKey := {| timestamp := t; data := Results results |}]>
                     (cache w)) w).

Lemma along_storeAndReturn (results : list Issue) :
  steps R (storeAndReturn env cacheKey results).
Proof.
  intros w. rewrite storeAndReturn_spec. cbn [snd].
  destruct (cacheEnabled (settings w)) eqn:Henabled;
    [now apply store|apply R_refl].
Qed.
End Store.
End Along.

(** *** The two acquisition functions *)

Section AlongAcquisition.
Variable R : World -> World -> Prop.
Hypothesis R_refl : forall w, R w w.
Hypothesis R_trans : forall w1 w2 w3, R w1 w2 -> R w2 w3 -> R w1 w3.
Variable env : Env.
Variables (repo : string) (keywords : list string).
Hypothesis emitRepo : forall o r w, R w (emit (ReposGet o r) w).
Hypothesis emitBranch : forall o r b w, R w (emit (ReposGetBranch o r b) w).
Hypothesis emitContent :
  forall o r p b w, R w (emit (ReposGetContent o r p b) w).
Hypothesis emitLocal :
  forall ev w, isDownloadOrExtraction ev = true -> R w (emit ev w).
Hypothesis write : forall p bytes w, R w (setFiles (<[p := bytes]> (files w)) w).
Hypothesis remove : forall p w, R w (setFiles (delete p (files w)) w).
Hypothesis setAnyDirs : forall d w, R w (setDirs d w).
Hypothesis record :
  forall known w, R w (setRepoCache (<[repo := known]> (repoCache w)) w).
Hypothesis store :
  forall t results w,
    cacheEnabled (settings w) = true ->
    R w (setCache (<[cacheKeyOf repo keywords :=
                       {| timestamp := t; data := Results results |}]>
                     (cache w)) w).

Lemma along_await {A} (ev : Event) (r : Reply A) :
  (forall w, R w (emit ev w)) -> steps R (await ev r).
Proof. intros Hev w. unfold await. destruct r; apply Hev. Qed.

Lemma along_collectFiles recurse contentArray :
  (forall path, steps R (recurse path)) ->
  steps R (collectFiles recurse contentArray).
Proof.
  intros Hrec. induction contentArray as [|item rest IH]; cbn [collectFiles];
    [now apply along_ret|].
  apply along_bind; [exact R_trans| |].
  { destruct (GitHubContent.type_ item);
      [apply Hrec|now apply along_ret|now apply along_ret|now apply along_ret]. }
  intros here. apply along_bind; [exact R_trans|exact IH|].
  intros more. now apply along_ret.
Qed.

Lemma along_getFilesRecursively octokit owner repoName defaultBranch :
  forall fuel path,
    steps R (getFilesRecursively fuel octokit owner repoName defaultBranch path).
Proof.
  intros fuel. induction fuel as [|fuel IH]; intros path;
    cbn [getFilesRecursively]; [intros w; apply R_refl|].
  apply along_bind; [exact R_trans|apply along_await; intros w; apply emitContent|].
  intros contents. apply along_collectFiles. exact IH.
Qed.

Lemma along_scanRemoteFiles octokit owner repoName defaultBranch ks fs :
  steps R (scanRemoteFiles env octokit owner repoName defaultBranch ks fs).
Proof.
  induction fs as [|f rest IH]; cbn [scanRemoteFiles]; [now apply along_ret|].
  apply along_bind; [exact R_trans| |].
  { unfold scanRemoteFile. destruct (_ || _); [now apply along_ret|].
    apply along_bind;
      [exact R_trans|apply along_await; intros w; apply emitContent|].
    intros [items|fileData]; [now apply along_ret|].
    destruct (negb _); now apply along_ret. }
  intros here. apply along_bind; [exact R_trans|exact IH|].
  intros more. now apply along_ret.
Qed.

Lemma along_scanBranch fuel octokit owner repoName defaultBranch :
  steps R (scanBranch env fuel octokit owner repoName keywords
                      (cacheKeyOf repo keywords) defaultBranch).
Proof.
  unfold scanBranch.
  apply along_bind; [exact R_trans|apply along_getFilesRecursively|].
  intros found. apply along_bind; [exact R_trans|apply along_scanRemoteFiles|].
  intros results. now apply along_storeAndReturn.
Qed.

Lemma along_scanRemotely fuel :
  steps R (scanRemotely env fuel repo keywords (cacheKeyOf repo keywords)).
Proof.
  intros w. rewrite scanRemotely_spec.
  destruct (rejectedByCheck repo); [apply R_refl|]. cbv zeta.
  generalize (newOctokit env (credential w)). intros octokit. revert w.
  apply along_bind; [exact R_trans|apply along_await; intros w; apply emitRepo|].
  intros defaultBranch. apply along_scanBranch.
Qed.

Lemma along_scanSnapshot fuel octokit owner repoName repoDir defaultBranch :
  steps R (scanSnapshot env fuel octokit repo owner repoName keywords
                        (cacheKeyOf repo keywords) repoDir defaultBranch).
Proof.
  unfold scanSnapshot.
  apply along_bind;
    [exact R_trans|apply along_await; intros w; apply emitBranch|].
  intros latestCommit. apply along_bind; [exact R_trans|now apply along_getWorld|].
  intros w1. apply along_bind; [exact R_trans| |].
  { destruct (upToDate w1 repo latestCommit); [now apply along_ret|].
    now apply along_refreshSnapshot. }
  intros _. apply along_bind; [exact R_trans|now apply along_readTree|].
  intros found. now apply along_storeAndReturn.
Qed.

Lemma along_fetchIssuesLocally fuel :
  steps R (fetchIssuesLocally env fuel repo keywords).
Proof.
  intros w. rewrite fetchIssuesLocally_spec.
  destruct (rejectedByCheck repo); [apply R_refl|].
  destruct (liveEntry env w _); [apply R_refl|].
  revert w. unfold scanLocally.
  apply along_bind; [exact R_trans|now apply along_getWorld|]. intros w.
  apply along_bind; [exact R_trans| |].
  { apply along_when; [exact R_refl|]. intros w'. apply setAnyDirs. }
  intros _. apply along_bind;
    [exact R_trans|apply along_await; intros w'; apply emitRepo|].
  intros defaultBranch. apply along_scanSnapshot.
Qed.

Lemma along_fetchIssues fuel : steps R (fetchIssues env fuel repo keywords).
Proof.
  intros w. rewrite fetchIssues_spec.
  destruct (knownRateLimited env w repo).
  { apply along_tryCatch; [exact R_trans|apply along_fetchIssuesLocally|].
    intros e. now apply along_throw. }
  destruct (liveEntry env w _); [apply R_refl|].
  apply along_scanRemotely.
Qed.
End AlongAcquisition.

(** ** Footprints *)

Lemma requestsOnly_trans allowed w1 w2 w3 :
  requestsOnly allowed w1 w2 -> requestsOnly allowed w2 w3 ->
  requestsOnly allowed w1 w3.
Proof. apply (frame_trans _ (requestsOnly_frame allowed)). Qed.

Lemma requestsOnly_same allowed w w' :
  trace w' = trace w -> requestsOnly allowed w w'.
Proof. intros Ht. exists []. now rewrite Ht, app_nil_r. Qed.

Lemma downloadFile_footprint
      (env : Env) (fuel : nat) (url destination : string) (w : World) :
  onlyDownloads destination w (snd (downloadFile env fuel url destination w)).
Proof.
  revert w. apply along_downloadFile; unfold onlyDownloads.
  - intros w. repeat split. now apply requestsOnly_same.
  - intros w1 w2 w3 (S1 & C1 & P1 & D1 & F1 & T1) (S2 & C2 & P2 & D2 & F2 & T2).
    repeat split; try congruence. exact (requestsOnly_trans _ _ _ _ T1 T2).
  - intros bytes w. cbn. repeat split;
      [apply delete_insert_eq|now apply requestsOnly_same].
  - intros w. cbn. repeat split;
      [apply delete_delete_eq|now apply requestsOnly_same].
  - intros u w. cbn. repeat split. now apply requestsOnly_emit.
Qed.

(** X8. A download changes nothing but the destination file and sends
    nothing but [https.get] requests: settings, result cache, snapshot
    records, directories and every other file are as before. *)
Theorem download_touches_only_destination
        (env : Env) (fuel : nat) (url destination : string) (w : World) :
  let w' := snd (downloadFile env fuel url destination w) in
  settings w' = settings w
  /\ cache w' = cache w
  /\ repoCache w' = repoCache w
  /\ dirs w' = dirs w
  /\ delete destination (files w') = delete destination (files w)
  /\ requestsOnly isHttpsGet w w'.
Proof. apply downloadFile_footprint. Qed.


Lemma along_acquire (R : World -> World -> Prop) (env : Env) (fuel : nat)
      (b : Block) :
  (forall w1 w2 w3, R w1 w2 -> R w2 w3 -> R w1 w3) ->
  steps R (fetchIssuesLocally env fuel (repo b) (keywords b)) ->
  steps R (fetchIssues env fuel (repo b) (keywords b)) ->
  steps R (acquire env fuel b).
Proof.
  intros Htrans Hlocal Hremote. unfold acquire.
  destruct (negb (forceApi b)); [|exact Hremote].
  apply along_tryCatch; [exact Htrans|exact Hlocal|]. intros e. exact Hremote.
Qed.

Lemma ownEntriesOnly_trans repo key w1 w2 w3 :
  ownEntriesOnly repo key w1 w2 -> ownEntriesOnly repo key w2 w3 ->
  ownEntriesOnly repo key w1 w3.
Proof.
  intros (S1 & P1 & C1) (S2 & P2 & C2). repeat split; congruence.
Qed.

(** X10. An acquisition changes, among the plugin's fields, at most the
    snapshot record of its own repository and the cache entry under its own
    key: the settings, the records of other repositories and every other
    cache entry are as before. *)
Theorem acquisition_changes_only_own_entries
        (env : Env) (fuel : nat) (b : Block) (w : World) :
  ownEntriesOnly (repo b) (cacheKeyOf (repo b) (keywords b)) w
                 (snd (acquire env fuel b w)).
Proof.
  revert w. apply along_acquire; [apply ownEntriesOnly_trans| |].
  - apply along_fetchIssuesLocally;
      try apply ownEntriesOnly_trans;
      try (intros; unfold ownEntriesOnly; cbn; repeat split;
           apply delete_insert_eq).
  - apply along_fetchIssues;
      try apply ownEntriesOnly_trans;
      try (intros; unfold ownEntriesOnly; cbn; repeat split;
           apply delete_insert_eq).
Qed.

Lemma cacheKeptWhenOff_trans w1 w2 w3 :
  cacheKeptWhenOff w1 w2 -> cacheKeptWhenOff w2 w3 -> cacheKeptWhenOff w1 w3.
Proof.
  intros (S1 & C1) (S2 & C2). split; [congruence|].
  intros Hoff. rewrite C2, C1; [reflexivity|exact Hoff|]. now rewrite S1.
Qed.

Lemma cacheKeptWhenOff_store key entry w :
  cacheEnabled (settings w) = true ->
  cacheKeptWhenOff w (setCache (<[key := entry]> (cache w)) w).
Proof.
  intros Hon. split; [reflexivity|]. intros Hoff.
  rewrite Hon in Hoff. discriminate Hoff.
Qed.

(** X11. With caching switched off in the settings an acquisition leaves
    the result cache as it is. *)
Theorem disabled_cache_is_not_written
        (env : Env) (fuel : nat) (b : Block) (w : World) :
  cacheEnabled (settings w) = false ->
  cache (snd (acquire env fuel b w)) = cache w.
Proof.
  intros Hoff.
  assert (steps cacheKeptWhenOff (acquire env fuel b)) as Hsteps.
  { apply along_acquire; [apply cacheKeptWhenOff_trans| |].
    - apply along_fetchIssuesLocally;
        try apply cacheKeptWhenOff_trans;
        try (intros; now apply cacheKeptWhenOff_store);
        try (intros; split; reflexivity).
    - apply along_fetchIssues;
        try apply cacheKeptWhenOff_trans;
        try (intros; now apply cacheKeptWhenOff_store);
        try (intros; split; reflexivity). }
  now apply (Hsteps w).
Qed.

Lemma disabled_cache_is_not_written_witness :
  cache (snd (acquire Demo.env 3
                      {| repo := "octo/demo"; keywords := ["TODO"];
                         forceApi := false |} Demo.uncached))
  = cache Demo.uncached.
Proof.
  exact (disabled_cache_is_not_written
           Demo.env 3
           {| repo := "octo/demo"; keywords := ["TODO"]; forceApi := false |}
           Demo.uncached eq_refl).
Defined.

Lemma apiFootprint_trans w1 w2 w3 :
  apiFootprint w1 w2 -> apiFootprint w2 w3 -> apiFootprint w1 w3.
Proof.
  intros (F1 & D1 & P1 & T1) (F2 & D2 & P2 & T2).
  repeat split; try congruence. exact (requestsOnly_trans _ _ _ _ T1 T2).
Qed.

(** X12. With [force-api] set and no live rate-limit entry, an acquisition
    sends only repository and content requests to the API and leaves files,
    directories and snapshot records untouched. *)
Theorem forced_api_touches_no_file
        (env : Env) (fuel : nat) (b : Block) (w : World) :
  forceApi b = true ->
  knownRateLimited env w (repo b) = false ->
  apiFootprint w (snd (acquire env fuel b w)).
Proof.
  intros Hforce Hnot. unfold acquire. rewrite Hforce. cbn [negb].
  rewrite fetchIssues_spec, Hnot.
  destruct (liveEntry env w _).
  { repeat split. now apply requestsOnly_same. }
  revert w Hnot. intros w _. revert w.
  apply along_scanRemotely.
  - intros w. repeat split. now apply requestsOnly_same.
  - apply apiFootprint_trans.
  - intros o r w. repeat split. now apply requestsOnly_emit.
  - intros o r p br w. repeat split. now apply requestsOnly_emit.
  - intros t results w _. repeat split. now apply requestsOnly_same.
Qed.

Lemma forced_api_touches_no_file_witness :
  apiFootprint Demo.afterFirst
    (snd (acquire Demo.env 3
                  {| repo := "octo/demo"; keywords := ["TODO"];
                     forceApi := true |} Demo.afterFirst)).
Proof.
  exact (forced_api_touches_no_file
           Demo.env 3
           {| repo := "octo/demo"; keywords := ["TODO"]; forceApi := true |}
           Demo.afterFirst eq_refl eq_refl).
Defined.

(** ** Failures and the result cache *)

Lemma keeps_of_steps {A} (m : Async A) :
  steps cacheKept m -> keepsCacheOnThrow m.
Proof.
  intros Hm w e w' Hrun. specialize (Hm w). now rewrite Hrun in Hm.
Qed.

Lemma keeps_bind {A B} (m : Async A) (k : A -> Async B) :
  steps cacheKept m -> (forall a, keepsCacheOnThrow (k a)) ->
  keepsCacheOnThrow (bind m k).
Proof.
  intros Hm Hk w e w' Hrun. unfold bind in Hrun. specialize (Hm w).
  destruct (m w) as [[a|e0|] w0]; cbn [snd] in Hm;
    [|injection Hrun as _ <-; exact Hm|discriminate Hrun].
  unfold cacheKept in Hm. rewrite <- Hm. exact (Hk a w0 e w' Hrun).
Qed.

Lemma keeps_tryCatch {A} (m : Async A) (handler : JsError -> Async A) :
  keepsCacheOnThrow m -> (forall e, keepsCacheOnThrow (handler e)) ->
  keepsCacheOnThrow (tryCatch m handler).
Proof.
  intros Hm Hh w e w' Hrun. unfold tryCatch in Hrun.
  destruct (m w) as [[a|e0|] w0] eqn:Hmw; try discriminate Hrun.
  rewrite <- (Hm w e0 w0 Hmw). exact (Hh e0 w0 e w' Hrun).
Qed.

Lemma keeps_storeAndReturn env key results :
  keepsCacheOnThrow (storeAndReturn env key results).
Proof. intros w e w' Hrun. rewrite storeAndReturn_spec in Hrun. discriminate Hrun. Qed.

Lemma cacheKept_trans w1 w2 w3 : cacheKept w1 w2 -> cacheKept w2 w3 -> cacheKept w1 w3.
Proof. unfold cacheKept. congruence. Qed.

Lemma keeps_fetchIssuesLocally env fuel repo keywords :
  keepsCacheOnThrow (fetchIssuesLocally env fuel repo keywords).
Proof.
  intros w e w' Hrun. rewrite fetchIssuesLocally_spec in Hrun.
  destruct (rejectedByCheck repo); [now injection Hrun as _ <-|].
  destruct (liveEntry env w _); [discriminate Hrun|].
  revert w e w' Hrun. unfold scanLocally.
  apply keeps_bind; [now apply along_getWorld|]. intros w.
  apply keeps_bind.
  { apply along_when; [reflexivity|]. intros w'. reflexivity. }
  intros _. apply keeps_bind; [apply along_await; reflexivity|].
  intros defaultBranch. unfold scanSnapshot.
  apply keeps_bind; [apply along_await; reflexivity|].
  intros latestCommit. apply keeps_bind; [now apply along_getWorld|].
  intros w1. apply keeps_bind.
  { destruct (upToDate w1 repo latestCommit); [now apply along_ret|].
    apply along_refreshSnapshot; try reflexivity; try apply cacheKept_trans. }
  intros _. apply keeps_bind;
    [apply along_readTree; [reflexivity|apply cacheKept_trans]|].
  intros found. apply keeps_storeAndReturn.
Qed.

Lemma keeps_fetchIssues env fuel repo keywords :
  keepsCacheOnThrow (fetchIssues env fuel repo keywords).
Proof.
  intros w e w' Hrun. rewrite fetchIssues_spec in Hrun.
  destruct (knownRateLimited env w repo).
  { revert Hrun. apply keeps_tryCatch; [apply keeps_fetchIssuesLocally|].
    intros e0. apply keeps_of_steps. now apply along_throw. }
  destruct (liveEntry env w _); [discriminate Hrun|].
  rewrite scanRemotely_spec in Hrun.
  destruct (rejectedByCheck repo); [now injection Hrun as _ <-|].
  cbv zeta in Hrun. revert Hrun.
  generalize (newOctokit env (credential w)). intros octokit. revert w e w'.
  apply keeps_bind; [apply along_await; reflexivity|].
  intros defaultBranch. unfold scanBranch. apply keeps_bind.
  { apply along_getFilesRecursively; try reflexivity; apply cacheKept_trans. }
  intros found. apply keeps_bind.
  { apply along_scanRemoteFiles; try reflexivity; apply cacheKept_trans. }
  intros results. apply keeps_storeAndReturn.
Qed.

(** X13. An acquisition that fails leaves the result cache exactly as it
    was, whichever of the two strategies failed and wherever it failed. *)
Theorem failed_acquisition_keeps_cache
        (env : Env) (fuel : nat) (b : Block) (w w' : World) (e : JsError) :
  acquire env fuel b w = (Throw e, w') -> cache w' = cache w.
Proof.
  revert w e w'. unfold acquire.
  destruct (negb (forceApi b)); [|apply keeps_fetchIssues].
  apply keeps_tryCatch; [apply keeps_fetchIssuesLocally|].
  intros e. apply keeps_fetchIssues.
Qed.

Lemma failed_acquisition_keeps_cache_witness :
  cache (snd (acquire Demo.exhaustedEnv 3
                      {| repo := "octo/demo"; keywords := ["BUG"];
                         forceApi := false |} Demo.afterRemote))
  = cache Demo.afterRemote.
Proof.
  apply (failed_acquisition_keeps_cache
           Demo.exhaustedEnv 3
           {| repo := "octo/demo"; keywords := ["BUG"]; forceApi := false |}
           Demo.afterRemote _ Demo.rateLimited).
  vm_compute. reflexivity.
Defined.

(** ** Splitting and joining *)

Lemma append_assoc (a b c : string) : (a +:+ b) +:+ c = a +:+ (b +:+ c).
Proof.
  induction a as [|x a IH]; [reflexivity|].
  change (String x ((a +:+ b) +:+ c) = String x (a +:+ (b +:+ c))).
  now rewrite IH.
Qed.

Lemma split_nonempty (c : ascii) (s : string) : Js.split c s <> [].
Proof.
  destruct s as [|a s]; cbn; [discriminate|].
  destruct (Ascii.eqb a c); [discriminate|].
  destruct (Js.split c s); discriminate.
Qed.

Lemma join_consHead (sep : string) (a : ascii) (pieces : list string) :
  pieces <> [] ->
  Js.join sep (Js.consHead a pieces) = String a (Js.join sep pieces).
Proof.
  destruct pieces as [|p [|q rest]]; [contradiction| |]; reflexivity.
Qed.

(** Splitting loses nothing: the pieces of [s.split(c)] contain no
    [c], and joined with [c] they give [s] again. So the lines of a file
    joined by newlines are its content. *)
Theorem split_then_join (c : ascii) (s : string) :
  Js.join (String c "") (Js.split c s) = s
  /\ List.Forall (lacks c) (Js.split c s).
Proof.
  induction s as [|a s [IHjoin IHlacks]]; cbn [Js.split].
  - split; [reflexivity|]. constructor; [exact I|constructor].
  - destruct (Ascii.eqb_spec a c) as [->|Hne].
    + split; [|constructor; [exact I|exact IHlacks]].
      destruct (Js.split c s) as [|p l] eqn:Hs;
        [now apply split_nonempty in Hs|].
      change (Js.join (String c "") ("" :: p :: l))
        with (String c (Js.join (String c "") (p :: l))).
      now rewrite IHjoin.
    + split.
      * rewrite join_consHead by apply split_nonempty. now rewrite IHjoin.
      * now apply lacks_consHead.
Qed.

Lemma split_app_separator (c : ascii) (s t : string) :
  lacks c s -> Js.split c (s +:+ String c t) = s :: Js.split c t.
Proof.
  induction s as [|a s IH]; intros Hs.
  - change ("" +:+ String c t) with (String c t). cbn [Js.split].
    now rewrite Ascii.eqb_refl.
  - destruct Hs as [Hne Hs].
    change (String a s +:+ String c t) with (String a (s +:+ String c t)).
    cbn [Js.split]. rewrite (IH Hs).
    destruct (Ascii.eqb_spec a c); [contradiction|reflexivity].
Qed.

Lemma join_then_split (c : ascii) (l : list string) :
  l <> [] -> List.Forall (lacks c) l ->
  Js.split c (Js.join (String c "") l) = l.
Proof.
  intros Hne Hall. induction Hall as [|x l Hx Hl IH]; [contradiction|].
  destruct l as [|y l].
  - cbn. now apply split_without_separator.
  - change (Js.join (String c "") (x :: y :: l))
      with (x +:+ String c (Js.join (String c "") (y :: l))).
    rewrite (split_app_separator _ _ _ Hx). f_equal. now apply IH.
Qed.

(** ** Cache keys *)

Lemma cacheKeyOf_inj_join (repo : string) (k1 k2 : list string) :
  cacheKeyOf repo k1 = cacheKeyOf repo k2 -> Js.join "," k1 = Js.join "," k2.
Proof.
  unfold cacheKeyOf. intros H.
  apply String.app_inj in H. now apply (String.app_inj "-") in H.
Qed.

(** X14. For one repository, two non-empty keyword lists whose keywords
    contain no comma get different cache keys whenever the lists differ, be
    it only in the order of the keywords. *)
Theorem different_keyword_lists_have_different_keys
        (repo : string) (k1 k2 : list string) :
  k1 <> [] -> k2 <> [] ->
  List.Forall (lacks ",") k1 -> List.Forall (lacks ",") k2 ->
  k1 <> k2 ->
  cacheKeyOf repo k1 <> cacheKeyOf repo k2.
Proof.
  intros Hne1 Hne2 Hc1 Hc2 Hdiff Hkey. apply Hdiff.
  apply cacheKeyOf_inj_join in Hkey.
  rewrite <- (join_then_split "," k1 Hne1 Hc1).
  rewrite <- (join_then_split "," k2 Hne2 Hc2).
  change (String "," "") with ",". now rewrite Hkey.
Qed.

Lemma different_keyword_lists_have_different_keys_witness :
  cacheKeyOf "octo/demo" ["TODO"; "FIXME"]
  <> cacheKeyOf "octo/demo" ["FIXME"; "TODO"].
Proof.
  apply (different_keyword_lists_have_different_keys
           "octo/demo" ["TODO"; "FIXME"] ["FIXME"; "TODO"]);
    try discriminate.
  - repeat constructor; discriminate.
  - repeat constructor; discriminate.
Defined.

Lemma cacheKeyOf_comma (repo k1 k2 : string) (ks : list string) :
  cacheKeyOf repo ((k1 +:+ "," +:+ k2) :: ks) = cacheKeyOf repo (k1 :: k2 :: ks).
Proof.
  unfold cacheKeyOf, Js.join. f_equal. f_equal. cbn [String.concat].
  destruct ks as [|k ks]; [reflexivity|].
  now rewrite !append_assoc.
Qed.

(** X15. The key does not tell a keyword that contains a comma from two
    keywords: while the entry of a request for [k1], [k2], ... is live, a
    request for the single keyword [k1,k2] followed by the same rest is
    answered with that entry by both functions, without any scan. *)
Theorem comma_keyword_is_served_another_list
        (env : Env) (fuel : nat) (repo k1 k2 : string) (ks : list string)
        (w : World) (entry : CacheEntry) :
  rejectedByCheck repo = false ->
  liveEntry env w (cacheKeyOf repo (k1 :: k2 :: ks)) = Some entry ->
  fetchIssuesLocally env fuel repo ((k1 +:+ "," +:+ k2) :: ks) w
  = (Return (data entry), w)
  /\ fetchIssues env fuel repo ((k1 +:+ "," +:+ k2) :: ks) w
     = (Return (data entry), w).
Proof.
  intros Hok Hlive. apply live_entry_is_served; [exact Hok|].
  now rewrite cacheKeyOf_comma.
Qed.

Lemma comma_keyword_is_served_another_list_witness :
  fetchIssuesLocally Demo.env 3 "octo/demo" ["TODO,FIXME"] Demo.afterRemote
  = (Return Demo.found, Demo.afterRemote)
  /\ fetchIssues Demo.env 3 "octo/demo" ["TODO,FIXME"] Demo.afterRemote
     = (Return Demo.found, Demo.afterRemote).
Proof.
  exact (comma_keyword_is_served_another_list
           Demo.env 3 "octo/demo" "TODO" "FIXME" [] Demo.afterRemote
           {| timestamp := 1000004; data := Demo.found |} eq_refl eq_refl).
Defined.

(** ** The "Default Keywords" field *)

(** X16. Showing the default keywords in the settings field and reading
    the field back gives the same settings, provided there is at least one
    keyword and no keyword contains a comma or begins or ends with white
    space. *)
Theorem default_keywords_round_trip (s : ForFixSakeSettings) :
  defaultKeywords s <> [] ->
  List.Forall (fun k => lacks "," k /\ Js.trim k = k) (defaultKeywords s) ->
  setDefaultKeywords (defaultKeywordsText s) s = s.
Proof.
  intros Hne Hall. destruct s as [token ks enabled expiry dir].
  unfold setDefaultKeywords, defaultKeywordsText. cbn in *. f_equal.
  change "," with (String "," "") at 1.
  rewrite join_then_split;
    [|exact Hne
     |eapply List.Forall_impl; [|exact Hall]; now intros k [Hk _]].
  clear Hne. induction Hall as [|k ks' [_ Hk] _ IH]; [reflexivity|].
  cbn. now rewrite Hk, IH.
Qed.

Lemma default_keywords_round_trip_witness :
  setDefaultKeywords (defaultKeywordsText Demo.DEFAULT_SETTINGS)
                     Demo.DEFAULT_SETTINGS
  = Demo.DEFAULT_SETTINGS.
Proof.
  apply default_keywords_round_trip; [discriminate|].
  repeat constructor; discriminate.
Defined.

(** ** The remote file listing *)



Lemma scanRemoteFile_requests
      (env : Env) (octokit : Octokit) (owner repoName defaultBranch : string)
      (keywords : list string) (f : GitHubContent.t) (w : World) :
  trace (snd (scanRemoteFile env octokit owner repoName defaultBranch keywords
                             f w)) = trace w
  \/ (GitHubContent.size f <= 500000
      /\ hasAllowedExtension (GitHubContent.name f) = true
      /\ trace (snd (scanRemoteFile env octokit owner repoName defaultBranch
                                    keywords f w))
         = (trace w ++ [ReposGetContent owner repoName (GitHubContent.path f)
                                        defaultBranch])%list).
Proof.
  unfold scanRemoteFile.
  destruct (500000 <? GitHubContent.size f) eqn:Hsize; cbn [orb];
    [now left|].
  destruct (hasAllowedExtension (GitHubContent.name f)) eqn:Hext; cbn [negb];
    [|now left].
  right. split; [now apply Z.ltb_ge in Hsize|]. split; [reflexivity|].
  unfold bind, await.
  destruct (repos_getContent octokit owner repoName (GitHubContent.path f)
                             defaultBranch) as [[items|fileData]|e];
    [reflexivity| |reflexivity].
  destruct (negb (Js.truthy (GitHubContent.content fileData))); reflexivity.
Qed.

(** X18. The remote scan asks for the content of a listed file only if the
    file is at most 500000 bytes long and its name ends in one of the
    allowed extensions; it sends no other request. *)
Theorem content_requested_for_eligible_files_only
        (env : Env) (octokit : Octokit) (owner repoName defaultBranch : string)
        (keywords : list string) (fs : list GitHubContent.t) (w : World) :
  exists more,
    trace (snd (scanRemoteFiles env octokit owner repoName defaultBranch
                                keywords fs w))
    = (trace w ++ more)%list
    /\ List.Forall
         (fun ev =>
            exists f,
              In f fs
              /\ GitHubContent.size f <= 500000
              /\ hasAllowedExtension (GitHubContent.name f) = true
              /\ ev = ReposGetContent owner repoName (GitHubContent.path f)
                                      defaultBranch)
         more.
Proof.
  revert w. induction fs as [|f rest IH]; intros w; cbn [scanRemoteFiles].
  { exists []. split; [cbn; now rewrite app_nil_r|constructor]. }
  pose proof (scanRemoteFile_requests env octokit owner repoName defaultBranch
                                      keywords f w) as Hfirst.
  assert (exists more1,
             trace (snd (scanRemoteFile env octokit owner repoName defaultBranch
                                        keywords f w))
             = (trace w ++ more1)%list
             /\ List.Forall
                  (fun ev =>
                     exists f0,
                       In f0 (f :: rest)
                       /\ GitHubContent.size f0 <= 500000
                       /\ hasAllowedExtension (GitHubContent.name f0) = true
                       /\ ev = ReposGetContent owner repoName
                                               (GitHubContent.path f0)
                                               defaultBranch) more1)
    as (more1 & Ht1 & Hmore1).
  { destruct Hfirst as [Hsame|(Hsize & Hext & Hone)].
    - exists []. split; [now rewrite app_nil_r|constructor].
    - eexists. split; [exact Hone|]. repeat constructor.
      exists f. repeat split; [now left|exact Hsize|exact Hext]. }
  clear Hfirst. unfold bind at 1.
  destruct (scanRemoteFile env octokit owner repoName defaultBranch keywords
                           f w) as [[here|e|] w1]; cbn [snd] in *;
    [|now exists more1|now exists more1].
  destruct (IH w1) as (more2 & Ht2 & Hmore2).
  exists (more1 ++ more2)%list. split.
  - unfold bind, ret.
    destruct (scanRemoteFiles env octokit owner repoName defaultBranch
                              keywords rest w1) as [[found|e|] w2];
      cbn [snd] in *; now rewrite Ht2, Ht1, app_assoc.
  - apply Forall_app. split; [exact Hmore1|].
    eapply List.Forall_impl; [|exact Hmore2].
    intros ev (f0 & Hin & Hrest). exists f0. split; [now right|exact Hrest].
Qed.

(** ** Links of the reported issues *)

Section Links.
Variables (owner repoName defaultBranch filePath : string).
Variable keywords : list string.

Lemma repeat_wellLinked i ln following k :
  List.Forall (wellLinked owner repoName defaultBranch filePath)
    (repeat (issueAt owner repoName defaultBranch filePath i ln following) k).
Proof.
  apply List.Forall_forall. intros m Hm. apply repeat_spec in Hm. subst m.
  split; reflexivity.
Qed.

(** X19. Every issue of either scan names the scanned file and links to
    the blob page of that file at the issue's own line. *)
Theorem issues_link_to_their_lines (text : string) :
  List.Forall (wellLinked owner repoName defaultBranch filePath)
    (scanLocalContent owner repoName defaultBranch filePath keywords text)
  /\ List.Forall (wellLinked owner repoName defaultBranch filePath)
       (scanRemoteContent owner repoName defaultBranch filePath keywords text).
Proof.
  unfold scanLocalContent, scanRemoteContent.
  generalize (Js.split (ascii_of_nat 10) text). intros lines.
  generalize 0%nat. induction lines as [|ln following IH]; intros j; cbn.
  - split; constructor.
  - destruct (IH (S j)) as [IHlocal IHremote]. split; apply Forall_app; split;
      try assumption.
    + rewrite localKeywordLoop_as_repeat. apply repeat_wellLinked.
    + rewrite remoteKeywordLoop_repeat. apply repeat_wellLinked.
Qed.
End Links.

(** ** The local directory walk *)

Lemma holdsFile_mono (l1 l2 : list Entry) (names : list string)
      (fileName : string) (size : Z) (text : option string) :
  (forall e, In e l1 -> In e l2) ->
  holdsFile l1 names fileName size text ->
  holdsFile l2 names fileName size text.
Proof.
  intros Hincl. destruct names as [|name rest]; cbn [holdsFile].
  - apply Hincl.
  - intros (sub & Hin & Hrest). exists sub. split; [now apply Hincl|exact Hrest].
Qed.

Lemma entered_spec (name : string) :
  entered name = true
  <-> Js.startsWith name "." = false
      /\ ~ In name ["node_modules"; ".git"; "build"; "dist"; "target"].
Proof.
  unfold entered. rewrite andb_true_iff, !negb_true_iff. split.
  - intros [Hdot Hexcluded]. split; [exact Hdot|]. intros Hin.
    assert (inList name excludedDirs = true) as Hcontra; [|congruence].
    unfold inList. apply existsb_exists. exists name.
    split; [exact Hin|apply String.eqb_refl].
  - intros [Hdot Hnot]. split; [exact Hdot|].
    destruct (inList name excludedDirs) eqn:Hin; [|reflexivity].
    exfalso. apply Hnot. unfold inList in Hin.
    apply existsb_exists in Hin as (x & Hx & Heq).
    apply String.eqb_eq in Heq. now subst x.
Qed.

(** The test of [walkDir] on a directory name is [entered]: the second
    conjunct of the [if] is covered by the list that follows it. *)
Lemma walkItem_directory (env : Env) (dir name : string) (sub : list Entry) :
  walkItem env dir (DirEntry name sub)
  = if entered name then walkDir env (path_join env dir name) sub else [].
Proof.
  cbn [walkItem]. unfold entered, walkDir.
  destruct (negb (Js.startsWith name ".")); cbn [andb]; [|reflexivity].
  destruct (String.eqb_spec name "node_modules") as [->|_]; cbn [negb andb];
    [reflexivity|].
  destruct (inList name excludedDirs); reflexivity.
Qed.

(** Every path returned lies in the tree, below entered directories. *)
Lemma walkItem_sound (env : Env) (item : Entry) :
  forall dir f,
    In f (walkItem env dir item) ->
    exists names fileName,
      holdsFile [item] names fileName (foundSize f) (foundText f)
      /\ List.Forall (fun n => entered n = true) names
      /\ foundPath f
         = path_join env (fold_left (path_join env) names dir) fileName.
Proof.
  induction item as [name size text|name items IH|name] using Entry_tree_ind;
    intros dir f Hin.
  - cbn [walkItem] in Hin. destruct Hin as [<-|[]].
    exists [], name. cbn. repeat split; [now left|constructor].
  - rewrite walkItem_directory in Hin.
    destruct (entered name) eqn:Hname; [|destruct Hin].
    unfold walkDir in Hin. apply in_flat_map in Hin as (child & Hchild & Hin).
    rewrite List.Forall_forall in IH.
    destruct (IH child Hchild _ _ Hin) as (names & fileName & Hholds & Hnames & Hpath).
    exists (name :: names), fileName. split; [|split].
    + cbn [holdsFile]. exists items. split; [now left|].
      eapply holdsFile_mono; [|exact Hholds].
      intros e [<-|[]]. exact Hchild.
    + now constructor.
    + exact Hpath.
  - destruct Hin.
Qed.

(** Every regular file of the tree below entered directories is returned. *)
Lemma walkDir_complete (env : Env) (names : list string) :
  forall dir items fileName f,
    holdsFile items names fileName (foundSize f) (foundText f) ->
    List.Forall (fun n => entered n = true) names ->
    foundPath f
    = path_join env (fold_left (path_join env) names dir) fileName ->
    In f (walkDir env dir items).
Proof.
  induction names as [|name rest IH]; intros dir items fileName f Hholds Hnames
                                             Hpath;
    cbn [holdsFile fold_left] in *; unfold walkDir; apply in_flat_map.
  - eexists. split; [exact Hholds|]. cbn [walkItem]. left.
    destruct f; cbn in *. now subst.
  - destruct Hholds as (sub & Hin & Hrest).
    inversion Hnames as [|? ? Hname Hothers]; subst.
    exists (DirEntry name sub). split; [exact Hin|].
    rewrite walkItem_directory, Hname.
    exact (IH _ _ _ _ Hrest Hothers Hpath).
Qed.

(** X20. [walkDir] returns exactly the regular files of the directory tree
    that lie below directories none of whose names begins with a dot or is
    [node_modules], [.git], [build], [dist] or [target], at whatever depth:
    each with the path joined from the start directory, the names of those
    directories and its own name, and with its own size and text. *)
Theorem walk_returns_files_below_entered_directories
        (env : Env) (dir : string) (items : list Entry) (f : FoundFile) :
  In f (walkDir env dir items)
  <-> exists names fileName,
        holdsFile items names fileName (foundSize f) (foundText f)
        /\ List.Forall
             (fun n => Js.startsWith n "." = false
                       /\ ~ In n ["node_modules"; ".git"; "build"; "dist";
                                  "target"]) names
        /\ foundPath f
           = path_join env (fold_left (path_join env) names dir) fileName.
Proof.
  split.
  - unfold walkDir. intros Hin. apply in_flat_map in Hin as (item & Hitem & Hin).
    destruct (walkItem_sound env item dir f Hin)
      as (names & fileName & Hholds & Hnames & Hpath).
    exists names, fileName. split; [|split; [|exact Hpath]].
    + eapply holdsFile_mono; [|exact Hholds]. intros e [<-|[]]. exact Hitem.
    + eapply List.Forall_impl; [|exact Hnames].
      intros n Hn. now apply entered_spec.
  - intros (names & fileName & Hholds & Hnames & Hpath).
    apply (walkDir_complete env names dir items fileName f Hholds); [|exact Hpath].
    eapply List.Forall_impl; [|exact Hnames].
    intros n Hn. now apply entered_spec.
Qed.

(** ** The code-block processor *)

Lemma parseLine_keeps_repo (b : Block) (ln : string) :
  Js.startsWith ln "repo:" = false -> repo (parseLine b ln) = repo b.
Proof.
  intros Hno. unfold parseLine. rewrite Hno.
  destruct (Js.startsWith ln "keywords:"); [reflexivity|].
  destruct (Js.startsWith ln "force-api:"); reflexivity.
Qed.

Lemma fold_parseLine_keeps_repo (lines : list string) : forall b,
  List.Forall (fun ln => Js.startsWith ln "repo:" = false) lines ->
  repo (fold_left parseLine lines b) = repo b.
Proof.
  induction lines as [|ln lines IH]; intros b Hall; [reflexivity|].
  inversion Hall as [|? ? Hln Hrest]; subst. cbn [fold_left].
  rewrite (IH _ Hrest). now apply parseLine_keeps_repo.
Qed.

(** X21. A block none of whose lines begins with [repo:] is answered with
    "No repository specified": nothing is requested and nothing changes. *)
Theorem block_without_repo_line
        (env : Env) (fuel : nat) (source : string) (w : World) :
  List.Forall (fun ln => Js.startsWith ln "repo:" = false)
              (Js.split (ascii_of_nat 10) source) ->
  codeBlockProcessor env fuel source w = (Return NoRepositorySpecified, w).
Proof.
  intros Hall. unfold codeBlockProcessor, bind at 1, getWorld. cbv zeta.
  unfold parseBlock. rewrite (fold_parseLine_keeps_repo _ _ Hall). reflexivity.
Qed.

Lemma block_without_repo_line_witness :
  codeBlockProcessor Demo.env 3
    ("keywords: TODO" +:+ Js.newline +:+ "force-api: true") Demo.fresh
  = (Return NoRepositorySpecified, Demo.fresh).
Proof.
  apply block_without_repo_line. repeat constructor.
Defined.

(** The processor never fails: whatever the acquisition throws ends as one
    of the displayed messages. *)
Lemma processor_never_throws
        (env : Env) (fuel : nat) (source : string) (w : World) :
  match fst (codeBlockProcessor env fuel source w) with
  | Throw _ => False
  | _ => True
  end.
Proof.
  unfold codeBlockProcessor, bind at 1, getWorld. cbv zeta.
  destruct (String.eqb _ ""); [exact I|].
  unfold tryCatch, bind, ret, getWorld.
  destruct (acquire env fuel _ w) as [[issues|e|] w']; exact I.
Qed.

Lemma absent_entry_not_live (env : Env) (w : World) (key : string) :
  cache w !! key = None -> liveEntry env w key = None.
Proof.
  intros Habsent. unfold liveEntry. rewrite Habsent.
  now destruct (cacheEnabled (settings w)).
Qed.

Lemma scanLocally_rejected (env : Env) (fuel : nat)
      (repo owner repoName : string) (keywords : list string) (key : string)
      (w : World) (e : JsError) :
  repos_get (newOctokit env (credential w)) owner repoName = Rejected e ->
  exists w1,
    scanLocally env fuel repo owner repoName keywords key w = (Throw e, w1)
    /\ trace w1 = (trace w ++ [ReposGet owner repoName])%list
    /\ cache w1 = cache w
    /\ settings w1 = settings w.
Proof.
  intros Hget. unfold scanLocally. run. rewrite Hget.
  destruct (negb (bool_decide (is_Some (dirs w !! _))));
    eexists; repeat split; reflexivity.
Qed.

Lemma scanRemotely_rejected (env : Env) (fuel : nat) (repo : string)
      (keywords : list string) (key : string) (w : World) (e : JsError) :
  rejectedByCheck repo = false ->
  repos_get (newOctokit env (credential w))
            (default "" (Js.split "/" repo !! 0%nat))
            (default "" (Js.split "/" repo !! 1%nat)) = Rejected e ->
  scanRemotely env fuel repo keywords key w
  = (Throw e,
     emit (ReposGet (default "" (Js.split "/" repo !! 0%nat))
                    (default "" (Js.split "/" repo !! 1%nat))) w).
Proof.
  intros Hok Hget. rewrite scanRemotely_spec, Hok. cbv zeta. run.
  now rewrite Hget.
Qed.

Lemma passing_identifier_not_empty (repo : string) :
  rejectedByCheck repo = false -> String.eqb repo "" = false.
Proof.
  intros Hok. destruct (String.eqb_spec repo "") as [->|]; [|reflexivity].
  discriminate Hok.
Qed.

(** X22. When the repository request is rejected (and no cache entry
    exists for the request), the processor displays the message that belongs
    to that very error. In the default mode it has then sent the request
    twice, once for the local search and once for the API fallback; with
    [force-api] once. *)
Theorem rejected_repository_request_is_displayed
        (env : Env) (fuel : nat) (source : string) (w : World) (e : JsError) :
  let b := parseBlock (defaultKeywords (settings w)) source in
  let owner := default "" (Js.split "/" (repo b) !! 0%nat) in
  let repoName := default "" (Js.split "/" (repo b) !! 1%nat) in
  rejectedByCheck (repo b) = false ->
  cache w !! cacheKeyOf (repo b) (keywords b) = None ->
  cache w !! rateLimitKeyOf (repo b) = None ->
  repos_get (newOctokit env (credential w)) owner repoName = Rejected e ->
  fst (codeBlockProcessor env fuel source w) = Return (displayError w e)
  /\ trace (snd (codeBlockProcessor env fuel source w))
     = (trace w ++ if forceApi b
                   then [ReposGet owner repoName]
                   else [ReposGet owner repoName; ReposGet owner repoName])%list.
Proof.
  intros b owner repoName Hok Hkey Hmark Hget.
  assert (forall w0,
             cache w0 = cache w -> settings w0 = settings w ->
             fetchIssues env fuel (repo b) (keywords b) w0
             = (Throw e, emit (ReposGet owner repoName) w0)) as Hremote.
  { intros w0 Hc Hs. rewrite fetchIssues_spec.
    unfold knownRateLimited.
    rewrite !absent_entry_not_live by (now rewrite Hc).
    apply scanRemotely_rejected; [exact Hok|].
    unfold credential. rewrite Hs. exact Hget. }
  assert (exists w2,
             codeBlockProcessor env fuel source w
             = (Return (displayError w e), w2)
             /\ trace w2
                = (trace w ++ if forceApi b
                              then [ReposGet owner repoName]
                              else [ReposGet owner repoName;
                                    ReposGet owner repoName])%list)
    as (w2 & Hrun & Htrace).
  { unfold codeBlockProcessor, bind at 1, getWorld. cbv zeta. fold b.
    rewrite (passing_identifier_not_empty _ Hok).
    unfold acquire. destruct (forceApi b); cbn [negb].
    - unfold tryCatch, bind. rewrite (Hremote w eq_refl eq_refl).
      eexists. split; reflexivity.
    - destruct (scanLocally_rejected env fuel (repo b) owner repoName
                  (keywords b) (cacheKeyOf (repo b) (keywords b)) w e Hget)
        as (w1 & Hlocal & Ht1 & Hc1 & Hs1).
      unfold tryCatch, bind.
      rewrite fetchIssuesLocally_spec, Hok.
      rewrite (absent_entry_not_live _ _ _ Hkey). fold owner repoName.
      rewrite Hlocal, (Hremote w1 Hc1 Hs1). unfold getWorld, ret.
      eexists. split.
      + f_equal. f_equal. unfold displayError. cbn [settings emit].
        now rewrite Hs1.
      + cbn [trace emit]. now rewrite Ht1, <- app_assoc. }
  rewrite Hrun. now split.
Qed.

Lemma rejected_repository_request_is_displayed_witness :
  fst (codeBlockProcessor Demo.exhaustedEnv 3 "repo: octo/demo" Demo.fresh)
  = Return RateLimitReached
  /\ trace (snd (codeBlockProcessor Demo.exhaustedEnv 3 "repo: octo/demo"
                                    Demo.fresh))
     = [ReposGet "octo" "demo"; ReposGet "octo" "demo"].
Proof.
  exact (rejected_repository_request_is_displayed
           Demo.exhaustedEnv 3 "repo: octo/demo" Demo.fresh Demo.rateLimited
           eq_refl eq_refl eq_refl eq_refl).
Defined.

(** X23. A [repo:] line whose identifier does not pass the check (and for
    which no cache entry exists) makes the processor display "Failed to
    fetch issues: Invalid repository format. Use "owner/repo"", in either
    mode, without any request and without any change. *)
Theorem malformed_identifier_is_displayed
        (env : Env) (fuel : nat) (source : string) (w : World) :
  let b := parseBlock (defaultKeywords (settings w)) source in
  repo b <> "" ->
  rejectedByCheck (repo b) = true ->
  cache w !! cacheKeyOf (repo b) (keywords b) = None ->
  cache w !! rateLimitKeyOf (repo b) = None ->
  codeBlockProcessor env fuel source w
  = (Return (ErrorText ("Failed to fetch issues: Invalid repository format. Use "
                        +:+ Js.dquote +:+ "owner/repo" +:+ Js.dquote)),
     w).
Proof.
  intros b Hrepo Hbad Hkey Hmark.
  assert (fetchIssuesLocally env fuel (repo b) (keywords b) w
          = (Throw invalidFormat, w)) as Hlocal
      by (now rewrite fetchIssuesLocally_spec, Hbad).
  assert (fetchIssues env fuel (repo b) (keywords b) w
          = (Throw invalidFormat, w)) as Hremote.
  { rewrite fetchIssues_spec. unfold knownRateLimited.
    rewrite !absent_entry_not_live by assumption.
    now rewrite scanRemotely_spec, Hbad. }
  unfold codeBlockProcessor, bind at 1, getWorld. cbv zeta. fold b.
  destruct (String.eqb_spec (repo b) "") as [Hempty|_]; [contradiction|].
  unfold acquire, tryCatch, bind.
  destruct (negb (forceApi b)); rewrite ?Hlocal, Hremote; reflexivity.
Qed.

Lemma malformed_identifier_is_displayed_witness :
  codeBlockProcessor Demo.env 3 "repo: octo" Demo.fresh
  = (Return (ErrorText ("Failed to fetch issues: Invalid repository format. Use "
                        +:+ Js.dquote +:+ "owner/repo" +:+ Js.dquote)),
     Demo.fresh).
Proof.
  apply (malformed_identifier_is_displayed Demo.env 3 "repo: octo" Demo.fresh);
    [discriminate|reflexivity|reflexivity|reflexivity].
Defined.

(** ** The API-only variant and the later variant *)

Section Listing.
Variable P : GitHubContent.t -> Prop.

Lemma collectFiles_closed (recurse : string -> Async (list GitHubContent.t)) :
  (forall path w,
      match fst (recurse path w) with
      | Return found => List.Forall P found
      | _ => True
      end) ->
  forall contentArray w,
    List.Forall P contentArray ->
    match fst (collectFiles recurse contentArray w) with
    | Return found => List.Forall P found
    | _ => True
    end.
Proof.
  intros Hrec. induction contentArray as [|item rest IH]; intros w Hall;
    cbn [collectFiles]; [constructor|].
  inversion Hall as [|? ? Hitem Hrest]; subst.
  unfold bind at 1.
  assert (match
             fst (match GitHubContent.type_ item with
                  | GitHubContent.dir => recurse (GitHubContent.path item)
                  | GitHubContent.file => ret [item]
                  | _ => ret []
                  end w)
           with
           | Return found => List.Forall P found
           | _ => True
           end) as Hhere.
  { destruct (GitHubContent.type_ item);
      [apply Hrec|repeat constructor; exact Hitem|constructor|constructor]. }
  destruct (match GitHubContent.type_ item with
            | GitHubContent.dir => recurse (GitHubContent.path item)
            | GitHubContent.file => ret [item]
            | _ => ret []
            end w) as [[here|e|] w1]; cbn [fst] in *; try exact I.
  unfold bind. specialize (IH w1 Hrest).
  destruct (collectFiles recurse rest w1) as [[more|e|] w2]; cbn [fst] in *;
    try exact I.
  apply Forall_app. now split.
Qed.

Lemma listing_closed (octokit : Octokit) (owner repoName defaultBranch : string) :
  listsOnly P octokit owner repoName defaultBranch ->
  forall fuel path w,
    match fst (getFilesRecursively fuel octokit owner repoName defaultBranch
                                   path w) with
    | Return found => List.Forall P found
    | _ => True
    end.
Proof.
  intros Hlists fuel. induction fuel as [|fuel IH]; intros path w;
    cbn [getFilesRecursively]; [exact I|].
  unfold bind, await. specialize (Hlists path).
  destruct (repos_getContent octokit owner repoName path defaultBranch)
    as [[items|item]|e]; [| |exact I].
  - now apply collectFiles_closed.
  - apply collectFiles_closed; [exact IH|]. now repeat constructor.
Qed.
End Listing.

Lemma scanRemoteFiles_same (env : Env) (octokit : Octokit)
      (owner repoName defaultBranch : string) (keywords : list string)
      (fs : list GitHubContent.t) :
  List.Forall sameTreatment fs ->
  forall w,
    scanRemoteFiles env octokit owner repoName defaultBranch keywords fs w
    = ApiOnlyFetch.scanRemoteFiles env octokit owner repoName defaultBranch
                                   keywords fs w.
Proof.
  intros Hall. induction Hall as [|f rest Hf _ IH]; intros w; [reflexivity|].
  cbn [scanRemoteFiles ApiOnlyFetch.scanRemoteFiles].
  assert (scanRemoteFile env octokit owner repoName defaultBranch keywords f
          = ApiOnlyFetch.scanRemoteFile env octokit owner repoName
                                        defaultBranch keywords f) as ->.
  { unfold scanRemoteFile, ApiOnlyFetch.scanRemoteFile. now rewrite Hf. }
  unfold bind at 1 3.
  destruct (ApiOnlyFetch.scanRemoteFile env octokit owner repoName
                                        defaultBranch keywords f w)
    as [[here|e|] w1]; try reflexivity.
  unfold bind. now rewrite IH.
Qed.

Lemma disabled_cache_not_live (env : Env) (w : World) (key : string) :
  cacheEnabled (settings w) = false -> liveEntry env w key = None.
Proof. intros Hoff. unfold liveEntry. now rewrite Hoff. Qed.

Lemma apiOnly_fetchIssues_spec (env : Env) (fuel : nat) (repo : string)
      (keywords : list string) (w : World) :
  ApiOnlyFetch.fetchIssues env fuel repo keywords w
  = if rejectedByCheck repo then (Throw invalidFormat, w)
    else
      let octokit := newOctokit env (credential w) in
      let owner := default "" (Js.split "/" repo !! 0%nat) in
      let repoName := default "" (Js.split "/" repo !! 1%nat) in
      (defaultBranch <~ await (ReposGet owner repoName)
                              (repos_get octokit owner repoName) ;;
       found <~ getFilesRecursively fuel octokit owner repoName defaultBranch
                                    "" ;;
       ApiOnlyFetch.scanRemoteFiles env octokit owner repoName defaultBranch
                                    keywords found) w.
Proof.
  unfold ApiOnlyFetch.fetchIssues, rejectedByCheck, bind at 1, getWorld.
  cbv zeta. destruct (_ || _); reflexivity.
Qed.

(** X24. With caching switched off and a repository in which no listed name
    ends in [.ml] or [.mli], [fetchIssues] of the later variant does exactly
    what [fetchIssues] of the API-only variant does: the same requests, the
    same issues or the same error. *)
Theorem variants_agree_without_cache
        (env : Env) (fuel : nat) (repo : string) (keywords : list string)
        (w : World) :
  cacheEnabled (settings w) = false ->
  (forall defaultBranch,
      listsOnly sameTreatment (newOctokit env (credential w))
                (default "" (Js.split "/" repo !! 0%nat))
                (default "" (Js.split "/" repo !! 1%nat)) defaultBranch) ->
  fetchIssues env fuel repo keywords w
  = (asPayload (fst (ApiOnlyFetch.fetchIssues env fuel repo keywords w)),
     snd (ApiOnlyFetch.fetchIssues env fuel repo keywords w)).
Proof.
  intros Hoff Hlists. rewrite fetchIssues_spec. unfold knownRateLimited.
  rewrite !disabled_cache_not_live by exact Hoff.
  rewrite scanRemotely_spec, apiOnly_fetchIssues_spec.
  destruct (rejectedByCheck repo); [reflexivity|]. cbv zeta.
  set (octokit := newOctokit env (credential w)) in *.
  set (owner := default "" (Js.split "/" repo !! 0%nat)) in *.
  set (repoName := default "" (Js.split "/" repo !! 1%nat)) in *.
  unfold scanBranch, bind, await.
  destruct (repos_get octokit owner repoName) as [defaultBranch|e];
    [|reflexivity].
  set (w1 := emit (ReposGet owner repoName) w).
  pose proof (listing_closed sameTreatment octokit owner repoName defaultBranch
                             (Hlists defaultBranch) fuel "" w1) as Hfound.
  pose proof (steps_getFilesRecursively
                _ sameSettings_frame octokit owner repoName defaultBranch
                ltac:(reflexivity) fuel "" w1) as Hs2.
  destruct (getFilesRecursively fuel octokit owner repoName defaultBranch ""
                                w1) as [[found|e|] w2];
    cbn [fst snd] in *; try reflexivity.
  pose proof (steps_scanRemoteFiles
                _ sameSettings_frame env octokit owner repoName defaultBranch
                keywords found ltac:(reflexivity) w2) as Hs3.
  rewrite (scanRemoteFiles_same _ _ _ _ _ _ _ Hfound) in Hs3 |- *.
  destruct (ApiOnlyFetch.scanRemoteFiles env octokit owner repoName
                                         defaultBranch keywords found w2)
    as [[results|e|] w3]; cbn [fst snd] in *; try reflexivity.
  rewrite storeAndReturn_spec.
  subst w1. unfold sameSettings in *. cbn [settings emit] in *.
  now rewrite Hs3, Hs2, Hoff.
Qed.

Lemma variants_agree_without_cache_witness :
  fetchIssues Demo.env 3 "octo/demo" ["TODO"] Demo.uncached
  = (asPayload (fst (ApiOnlyFetch.fetchIssues Demo.env 3 "octo/demo" ["TODO"]
                                              Demo.uncached)),
     snd (ApiOnlyFetch.fetchIssues Demo.env 3 "octo/demo" ["TODO"]
                                   Demo.uncached)).
Proof.
  apply (variants_agree_without_cache Demo.env 3 "octo/demo" ["TODO"]
                                      Demo.uncached); [reflexivity|].
  intros defaultBranch path. cbn.
  destruct (String.eqb path ""); [repeat constructor|].
  destruct (String.eqb path "src"); [repeat constructor|].
  destruct (String.eqb path "src/a.py"); [reflexivity|exact I].
Defined.
